(** * Tacotron2 ONNX inference wrapper: the autoregressive synthesis loop

    Shallow embedding of [espnet_onnx/tts/model/tts_models/tacotron2.py].

    Conventions of the embedding:
    - a numpy array is a record of its shape and its row-major data;
    - an entry of a float array is the rational it stands for; float64
      arithmetic and [astype(np.float32)] round to the nearest float of the
      format, to the even one of two equally near;
    - a Python float is such a rational, an infinity or not-a-number;
    - a Python exception is a constructor of [exn]; code that may raise
      returns a [result];
    - the ONNX sessions are functions supplied by the model files; every
      invocation is recorded in a ghost log carried next to the instance's
      mutable fields;
    - [while True] is unrolled under a fuel bound; exhausting the fuel is the
      outcome [OutOfFuel], which is neither a value nor an exception. *)

From Stdlib Require Import ZArith QArith Qabs Qround Qpower Lqa Lia.
From stdpp Require Import gmap strings list pretty.

Open Scope Z_scope.

(** ** Exceptions and results *)

Inductive exn : Type :=
| AssertionError
| ValueError
| TypeError
| IndexError
| AttributeError
| OverflowError
| SessionError (code : nat).

Inductive result (A : Type) : Type :=
| Ok (a : A)
| Raise (e : exn).
Arguments Ok {A} a.
Arguments Raise {A} e.

Definition rbind {A B} (r : result A) (k : A -> result B) : result B :=
  match r with
  | Ok a => k a
  | Raise e => Raise e
  end.

(** ** Floating point

    Rounding to the nearest float of a format, to the even one of two
    equally near (IEEE 754 round-to-nearest-even), on the exact value. *)

Definition pow2 (e : Z) : Q := (2 ^ e)%Q.

(** The position of the leading bit of [q <> 0]:
    [2^e <= |q| < 2^(e+1)]. *)
Definition ilog2 (q : Q) : Z :=
  let e := Z.log2 (Z.abs (Qnum q)) - Z.log2 (Zpos (Qden q)) in
  if Qle_bool (pow2 e) (Qabs q) then e else e - 1.

(** The integer nearest to [q], the even one of two equally near. *)
Definition round_half_even (q : Q) : Z :=
  let f := Qfloor q in
  match (q - inject_Z f ?= 1 # 2)%Q with
  | Lt => f
  | Gt => f + 1
  | Eq => if Z.even f then f else f + 1
  end.

(** A binary format: the number of significand bits, and the exponents of
    the smallest and of the largest normal numbers. *)
Record format : Type := { prec : Z; emin : Z; emax : Z }.
Definition binary64 : format := {| prec := 53; emin := -1022; emax := 1023 |}.
Definition binary32 : format := {| prec := 24; emin := -126; emax := 127 |}.

(** The nearest multiple of the unit in the last place; below [2^emin] the
    unit stays that of the smallest normal numbers (gradual underflow).  The
    exponent is not bounded above here, see [overflows]. *)
Definition round_to (fmt : format) (q : Q) : Q :=
  if Qeq_bool q 0 then 0%Q
  else
    let e := Z.max (ilog2 q) (emin fmt) in
    let ulp := pow2 (e - prec fmt + 1) in
    Qred (inject_Z (round_half_even (q / ulp)) * ulp).

(** A rounded value beyond the largest finite float of the format. *)
Definition overflows (fmt : format) (r : Q) : bool :=
  Qle_bool (pow2 (emax fmt + 1)) (Qabs r).

(** A Python float (a float64). *)
Inductive pyfloat : Type :=
| Finite (q : Q)
| Inf (negative : bool)
| NaN.

Definition to_float (fmt : format) (q : Q) : pyfloat :=
  let r := round_to fmt q in
  if overflows fmt r then Inf (negb (Qle_bool 0 r)) else Finite r.

(** [float(q)]: the float nearest to [q], as a literal is read. *)
Definition py_float (q : Q) : pyfloat := to_float binary64 q.

(** [float(n)] of an int, as the product of an int and a float converts the
    int: an int beyond the floats is refused. *)
Definition float_of_int (n : Z) : result Q :=
  let r := round_to binary64 (inject_Z n) in
  if overflows binary64 r then Raise OverflowError else Ok r.

(** [n * x] for an int [n] and a float [x]: a product too large is an
    infinity, nothing is raised for it. *)
Definition py_mul (n : Z) (x : pyfloat) : result pyfloat :=
  rbind (float_of_int n) (fun a =>
  Ok match x with
     | Finite b => to_float binary64 (a * b)
     | Inf negative =>
         if Qeq_bool a 0 then NaN else Inf (xorb negative (negb (Qle_bool 0 a)))
     | NaN => NaN
     end).

(** [int(x)] on a Python float: truncation towards zero; an infinity and
    not-a-number are refused. *)
Definition py_int (x : pyfloat) : result Z :=
  match x with
  | Finite q => Ok (Z.quot (Qnum q) (Zpos (Qden q)))
  | Inf _ => Raise OverflowError
  | NaN => Raise ValueError
  end.

(** [int(len(text) * ratio)] *)
Definition int_times (n : nat) (ratio : pyfloat) : result Z :=
  rbind (py_mul (Z.of_nat n) ratio) py_int.

(** The value of [int(len(text) * ratio)].  When the conversion raises, the
    call ends there and no bound is used; 0 stands for it. *)
Definition length_bound (n : nat) (ratio : pyfloat) : Z :=
  match int_times n ratio with
  | Ok bound => bound
  | Raise _ => 0
  end.

(** [a / n] for a float64 array entry and an int64 (numpy's true division):
    the int is converted to float64 and the quotient is rounded.  The only
    division of the program has a zero divisor for an array without entries
    only. *)
Definition true_divide (v : Q) (n : Z) : Q :=
  round_to binary64 (v / round_to binary64 (inject_Z n)).

(** ** Arrays *)

Record ndarray : Type := mk_ndarray { shape : list nat; data : list Q }.

Definition prod_list (l : list nat) : nat := fold_right Nat.mul 1%nat l.

(** [np.zeros(shp, dtype=np.float32)] *)
Definition np_zeros (shp : list nat) : ndarray :=
  mk_ndarray shp (repeat 0%Q (prod_list shp)).

(** [len(a)]: the first dimension; a 0-d array has no length. *)
Definition py_len (a : ndarray) : result nat :=
  match shape a with
  | [] => Raise TypeError
  | n :: _ => Ok n
  end.

(** [a.shape[0]] *)
Definition shape0 (a : ndarray) : result nat :=
  match shape a with
  | [] => Raise IndexError
  | n :: _ => Ok n
  end.

(** [x[None, :]]: a new leading axis of length one; the slice needs one
    existing axis. *)
Definition expand_front (x : ndarray) : result ndarray :=
  match shape x with
  | [] => Raise IndexError
  | _ :: _ => Ok (mk_ndarray (1%nat :: shape x) (data x))
  end.

Definition map_data (f : Q -> Q) (a : ndarray) : ndarray :=
  mk_ndarray (shape a) (map f (data a)).

(** [a.astype(np.float32)].  An entry beyond the float32 range would become
    an infinity; the arrays the program converts have entries between
    -10000 and 1. *)
Definition astype_float32 (a : ndarray) : ndarray :=
  map_data (round_to binary32) a.

(** [int(sum(prob >= threshold))].  The builtin [sum] iterates over the
    first axis of the boolean array and adds the rows; [int] of the total
    needs a single element. *)
Definition count_ge (threshold : Q) (l : list Q) : Z :=
  Z.of_nat (length (filter (fun p => Qle_bool threshold p = true) l)).

Definition stop_count (threshold : Q) (prob : ndarray) : result Z :=
  match shape prob with
  | [] => Raise TypeError
  | O :: _ => Ok 0
  | S _ :: rest =>
      if Nat.eqb (prod_list rest) 1 then Ok (count_ge threshold (data prob))
      else Raise TypeError
  end.

(** [np.concatenate(arrs, axis=axis)] *)
Definition replace_at (axis : nat) (n : nat) (shp : list nat) : list nat :=
  firstn axis shp ++ n :: skipn (S axis) shp.

Definition axis_len (axis : nat) (a : ndarray) : nat := nth axis (shape a) 0%nat.

Definition same_but_axis (axis : nat) (a b : ndarray) : bool :=
  Nat.eqb (length (shape a)) (length (shape b))
  && bool_decide (replace_at axis 0%nat (shape a) = replace_at axis 0%nat (shape b)).

Definition chunk (a : ndarray) (axis : nat) (o : nat) : list Q :=
  let inner := prod_list (skipn axis (shape a)) in
  firstn inner (skipn (o * inner) (data a)).

Definition np_concatenate (arrs : list ndarray) (axis : nat) : result ndarray :=
  match arrs with
  | [] => Raise ValueError
  | a :: rest =>
      if negb (axis <? length (shape a))%nat then Raise ValueError
      else if negb (forallb (same_but_axis axis a) rest) then Raise ValueError
      else
        let total := fold_right Nat.add 0%nat (map (axis_len axis) arrs) in
        let outer := prod_list (firstn axis (shape a)) in
        Ok (mk_ndarray (replace_at axis total (shape a))
              (flat_map (fun o => flat_map (fun b => chunk b axis o) arrs)
                        (seq 0 outer)))
  end.

(** Modelled from the spec: [make_pad_mask] of [espnet_onnx.utils.function],
    a count-based pad predicate equivalent to a binary mask: one row per
    length, as wide as the longest, with 1 at the padded positions (those at
    or beyond the row's length) and 0 at the valid ones. *)
Definition make_pad_mask (lengths : list nat) : ndarray :=
  let maxlen := fold_right Nat.max 0%nat lengths in
  mk_ndarray [length lengths; maxlen]
    (flat_map (fun l => map (fun i => if (l <=? i)%nat then 1%Q else 0%Q)
                            (seq 0 maxlen)) lengths).

(** ** Configuration and the loaded model *)

(** The decoder section of the configuration.  The two ratios are Python
    floats; the threshold is a finite one. *)
Record DecoderConfig : Type := {
  maxlenratio : pyfloat;
  minlenratio : pyfloat;
  reduction_factor : Z;
  threshold : Q;
  odim : nat;
  cfg_dlayers : nat;
  cfg_dunits : nat;
}.

(** [session.run(output_names, input_feed)] *)
Definition Session : Type :=
  list string -> gmap string ndarray -> result (list ndarray).

Inductive session_id : Type := Encoder | Predecoder | Decoder | Postdecoder.

(** What [__init__] fixes once and for all: the four sessions ([postdecoder]
    is [None] unless it was exported), the names of the encoder's inputs and
    of the decoder's outputs, and the decoder section of the configuration.
    The flags [use_sids], [use_lids], [use_feats] and [decoder_input_names]
    are never read and are left out. *)
Record Model : Type := {
  config : DecoderConfig;
  encoder : Session;
  predecoder : Session;
  decoder : Session;
  postdecoder : option Session;
  input_names : list string;
  decoder_output_names : list string;
}.

Definition dlayers (m : Model) : nat := cfg_dlayers (config m).
Definition dunits (m : Model) : nat := cfg_dunits (config m).

(** The instance attributes written by [init_state], absent until then, and
    the ghost log of session invocations (most recent last). *)
Record Self : Type := {
  pre_compute_enc_h : option ndarray;
  enc_h : option ndarray;
  mask : option ndarray;
  calls : list session_id;
}.

Definition fresh : Self :=
  {| pre_compute_enc_h := None; enc_h := None; mask := None; calls := [] |}.

(** ** Computations on an instance *)

Inductive outcome (A : Type) : Type :=
| Done (a : A)
| Raised (e : exn)
| OutOfFuel.
Arguments Done {A} a.
Arguments Raised {A} e.
Arguments OutOfFuel {A}.

Definition M (A : Type) : Type := Self -> outcome A * Self.

Definition ret {A} (a : A) : M A := fun s => (Done a, s).
Definition raise {A} (e : exn) : M A := fun s => (Raised e, s).
Definition bind {A B} (c : M A) (k : A -> M B) : M B :=
  fun s => match c s with
           | (Done a, s') => k a s'
           | (Raised e, s') => (Raised e, s')
           | (OutOfFuel, s') => (OutOfFuel, s')
           end.
Definition lift {A} (r : result A) : M A :=
  match r with
  | Ok a => ret a
  | Raise e => raise e
  end.

Declare Scope tts_scope.
Delimit Scope tts_scope with tts.
Notation "x <- c ;; k" := (bind c (fun x => k))
  (at level 100, c at next level, right associativity) : tts_scope.
Open Scope tts_scope.

(** [session.run(names, feed)[0]] *)
Definition first_output (outs : list ndarray) : result ndarray :=
  match outs with
  | [] => Raise IndexError
  | a :: _ => Ok a
  end.

Definition log (id : session_id) (s : Self) : Self :=
  {| pre_compute_enc_h := pre_compute_enc_h s; enc_h := enc_h s;
     mask := mask s; calls := calls s ++ [id] |}.

Definition run (id : session_id) (f : Session) (names : list string)
    (feed : gmap string ndarray) : M (list ndarray) :=
  fun s => lift (f names feed) (log id s).

Definition getattr (field : Self -> option ndarray) : M ndarray :=
  fun s => match field s with
           | Some a => (Done a, s)
           | None => (Raised AttributeError, s)
           end.

Definition set_pre_compute_enc_h (v : ndarray) : M unit :=
  fun s => (Done tt, {| pre_compute_enc_h := Some v; enc_h := enc_h s;
                        mask := mask s; calls := calls s |}).
Definition set_enc_h (v : ndarray) : M unit :=
  fun s => (Done tt, {| pre_compute_enc_h := pre_compute_enc_h s; enc_h := Some v;
                        mask := mask s; calls := calls s |}).
Definition set_mask (v : ndarray) : M unit :=
  fun s => (Done tt, {| pre_compute_enc_h := pre_compute_enc_h s; enc_h := enc_h s;
                        mask := Some v; calls := calls s |}).

(** [d.update(pairs)]: later pairs win. *)
Definition dict_update (d : gmap string ndarray) (kvs : list (string * ndarray))
    : gmap string ndarray :=
  foldl (fun acc kv => <[kv.1 := kv.2]> acc) d kvs.

(** ** The class [Tacotron2] *)

Section Tacotron2.

Variable m : Model.

Definition _set_input_dict (dic : gmap string ndarray) (key : string)
    (value : option ndarray) : result (gmap string ndarray) :=
  if bool_decide (key ∈ input_names m) then
    match value with
    | None => Raise AssertionError
    | Some v => Ok (<[key := v]> dic)
    end
  else Ok dic.

Definition get_input_enc (text : ndarray) (feats sids spembs lids : option ndarray)
    : result (gmap string ndarray) :=
  let ret0 : gmap string ndarray := {[ "text" := text ]} in
  rbind (_set_input_dict ret0 "feats" feats) (fun ret1 =>
  rbind (_set_input_dict ret1 "sids" sids) (fun ret2 =>
  rbind (_set_input_dict ret2 "spembs" spembs) (fun ret3 =>
  rbind (_set_input_dict ret3 "lids" lids) (fun ret4 =>
  Ok ret4)))).

Definition get_input_dec (c_list z_list : list ndarray) (a_prev prev_in : ndarray)
    : M (gmap string ndarray) :=
  let ret0 : gmap string ndarray := ∅ in
  let ret1 := dict_update ret0 (imap (fun i cl => ("c_prev_" +:+ pretty i, cl)) c_list) in
  let ret2 := dict_update ret1 (imap (fun i zl => ("z_prev_" +:+ pretty i, zl)) z_list) in
  pceh <- getattr pre_compute_enc_h ;;
  eh <- getattr enc_h ;;
  mk <- getattr mask ;;
  ret (dict_update ret2
         [("a_prev", a_prev); ("pceh", pceh); ("enc_h", eh); ("mask", mk);
          ("prev_in", prev_in)]).

Definition zero_state (hs_pad : ndarray) : result ndarray :=
  rbind (shape0 hs_pad) (fun n => Ok (np_zeros [n; dunits m])).

(** [get_att_prev(x)] with [att_type] left at its default [None], as its only
    caller does; the two reshaping branches are then skipped.  The mask is
    built from [x.shape[0]], and so is the divisor.  [1.0 - mask] is a
    float64 array of zeros and ones, exact; the quotient is a float64 array,
    converted to float32. *)
Definition get_att_prev (x : ndarray) : result ndarray :=
  rbind (shape0 x) (fun l =>
  let att_prev := map_data (fun v => 1 - v)%Q (make_pad_mask [l]) in
  rbind (shape0 x) (fun l' =>
  Ok (astype_float32
        (map_data (fun v => true_divide v (Z.of_nat l')) att_prev)))).

(** One [zero_state(x[None, :])]. *)
Definition zero_of (x : ndarray) : result ndarray :=
  rbind (expand_front x) zero_state.

(** [for _ in range(1, self.dlayers)]: [n] is the number of rounds left. *)
Fixpoint append_layers (n : nat) (x : ndarray) (c_list z_list : list ndarray)
    : result (list ndarray * list ndarray) :=
  match n with
  | O => Ok (c_list, z_list)
  | S n' =>
      rbind (zero_of x) (fun c =>
      rbind (zero_of x) (fun z =>
      append_layers n' x (c_list ++ [c]) (z_list ++ [z])))
  end.

Definition pad_bias (v : Q) : Q := if Qeq_bool v 1 then (-10000)%Q else 0%Q.

Definition init_state (x : ndarray)
    : M (list ndarray * list ndarray * ndarray * ndarray) :=
  c0 <- lift (zero_of x) ;;
  z0 <- lift (zero_of x) ;;
  cz <- lift (append_layers (dlayers m - 1) x [c0] [z0]) ;;
  a <- lift (get_att_prev x) ;;
  let prev_out := np_zeros [1%nat; odim (config m)] in
  feed <- lift (expand_front x) ;;
  outs <- run Predecoder (predecoder m) ["pre_compute_enc_h"] {[ "enc_h" := feed ]} ;;
  pceh <- lift (first_output outs) ;;
  _ <- set_pre_compute_enc_h pceh ;;
  eh <- lift (expand_front x) ;;
  _ <- set_enc_h eh ;;
  l <- lift (shape0 x) ;;
  _ <- set_mask (astype_float32 (map_data pad_bias (make_pad_mask [l]))) ;;
  ret (cz.1, cz.2, a, prev_out).

Definition _split (status_lists : list ndarray) : list ndarray * list ndarray :=
  let len_list := length status_lists in
  (firstn (len_list / 2) status_lists, skipn (len_list / 2) status_lists).

(** The accumulators [outs], [probs], [att_ws]. *)
Definition accs : Type := (list ndarray * list ndarray * list ndarray)%type.

(** [while True]: each round is one pass through lines 83-100; [break] hands
    the three accumulators to [finish]. *)
Fixpoint decode_loop (fuel : nat) (maxlen minlen idx : Z)
    (c_list z_list : list ndarray) (a_prev prev_out : ndarray)
    (outs probs att_ws : list ndarray) : M accs :=
  match fuel with
  | O => fun s => (OutOfFuel, s)
  | S fuel' =>
      let idx := idx + reduction_factor (config m) in
      input_dec <- get_input_dec c_list z_list a_prev prev_out ;;
      res <- run Decoder (decoder m) (decoder_output_names m) input_dec ;;
      match res with
      | out :: prob :: a_prev :: prev_out :: cz_states =>
          let cz := _split cz_states in
          let outs := outs ++ [out] in
          let probs := probs ++ [prob] in
          let att_ws := att_ws ++ [a_prev] in
          cnt <- lift (stop_count (threshold (config m)) prob) ;;
          if (0 <? cnt) || (maxlen <=? idx) then
            if idx <? minlen then
              decode_loop fuel' maxlen minlen idx cz.1 cz.2 a_prev prev_out
                          outs probs att_ws
            else ret (outs, probs, att_ws)
          else
            decode_loop fuel' maxlen minlen idx cz.1 cz.2 a_prev prev_out
                        outs probs att_ws
      | _ => raise ValueError
      end
  end.

(** Lines 101-108 and 111: what the final round does before and after
    [break]. *)
Definition finish (a : accs) : M (gmap string ndarray) :=
  let '(outs, probs, att_ws) := a in
  outs <- lift (np_concatenate outs 2) ;;
  outs <- match postdecoder m with
          | Some post =>
              r <- run Postdecoder post ["out"] {[ "x" := outs ]} ;;
              lift (first_output r)
          | None => ret outs
          end ;;
  probs <- lift (np_concatenate probs 0) ;;
  att_ws <- lift (np_concatenate att_ws 0) ;;
  ret (<[ "att_w" := att_ws ]> (<[ "prob" := probs ]> {[ "feat_gen" := outs ]})).

Definition __call__ (fuel : nat) (text : ndarray)
    (feats sids spembs lids : option ndarray) : M (gmap string ndarray) :=
  input_enc <- lift (get_input_enc text feats sids spembs lids) ;;
  hs <- run Encoder (encoder m) ["h"] input_enc ;;
  h <- lift (first_output hs) ;;
  n <- lift (py_len text) ;;
  maxlen <- lift (int_times n (maxlenratio (config m))) ;;
  minlen <- lift (int_times n (minlenratio (config m))) ;;
  st <- init_state h ;;
  let '(c_list, z_list, a_prev, prev_out) := st in
  a <- decode_loop fuel maxlen minlen 0 c_list z_list a_prev prev_out [] [] [] ;;
  finish a.

End Tacotron2.

(** ** A small concrete model

    One decoder layer of one unit, two output channels.  The decoder keeps a
    round counter in its cell state and signals the end with probability
    9/10 in round [stop_at], 1/10 otherwise. *)

Module Demo.

Definition vec (l : list Q) : ndarray := mk_ndarray [length l] l.

Definition enc : Session := fun _ feed =>
  match feed !! "text" with
  | Some t => Ok [mk_ndarray [length (data t); 2%nat]
                    (repeat 0%Q (length (data t) * 2))]
  | None => Raise (SessionError 0)
  end.

Definition pre : Session := fun _ feed =>
  match feed !! "enc_h" with
  | Some e => Ok [e]
  | None => Raise (SessionError 1)
  end.

Definition dec (stop_at : Q) (r : nat) (extra : list ndarray) : Session := fun _ feed =>
  match feed !! "c_prev_0", feed !! "z_prev_0", feed !! "a_prev" with
  | Some c, Some z, Some a =>
      let k := (hd 0 (data c) + 1)%Q in
      let p := if Qeq_bool k stop_at then (9 # 10)%Q else (1 # 10)%Q in
      Ok ([mk_ndarray [1%nat; 2%nat; r] (repeat k (2 * r));
           vec (repeat p r);
           a;
           mk_ndarray [1%nat; 2%nat] [k; k];
           mk_ndarray [1%nat; 1%nat] [k];
           z] ++ extra)
  | _, _, _ => Raise (SessionError 2)
  end.

(** The ratios are given as the configuration file writes them and read as
    floats. *)
Definition cfg (maxr minr : Q) (rf : Z) : DecoderConfig :=
  {| maxlenratio := py_float maxr; minlenratio := py_float minr;
     reduction_factor := rf;
     threshold := 1 # 2; odim := 2; cfg_dlayers := 1; cfg_dunits := 1 |}.

Definition model (maxr minr : Q) (rf : Z) (stop_at : Q) (extra : list ndarray)
    (names : list string) : Model :=
  {| config := cfg maxr minr rf;
     encoder := enc; predecoder := pre;
     decoder := dec stop_at (Z.to_nat rf) extra;
     postdecoder := None;
     input_names := names;
     decoder_output_names := ["out"; "prob"; "a_prev"; "prev_out"; "c_0"; "z_0"] |}.

Definition text10 : ndarray := vec (repeat 1%Q 10).

(** The state of the instance and of the loop once [init_state] has run on
    an encoder output of ten positions. *)
Definition h10 : ndarray := mk_ndarray [10%nat; 2%nat] (repeat 0%Q 20).
Definition ready : Self :=
  {| pre_compute_enc_h := Some (mk_ndarray [1%nat; 10%nat; 2%nat] (repeat 0%Q 20));
     enc_h := Some (mk_ndarray [1%nat; 10%nat; 2%nat] (repeat 0%Q 20));
     mask := Some (mk_ndarray [1%nat; 10%nat] (repeat 0%Q 10));
     calls := [Encoder; Predecoder] |}.
Definition zeros11 : ndarray := np_zeros [1%nat; 1%nat].
(** The float32 nearest to 0.1, the weight of one of ten positions. *)
Definition tenth : Q := (13421773 # 134217728)%Q.
Definition att10 : ndarray := mk_ndarray [1%nat; 10%nat] (repeat tenth 10).
Definition frame0 : ndarray := np_zeros [1%nat; 2%nat].

(** An encoder output without positions, and one of three positions. *)
Definition h_empty : ndarray := mk_ndarray [0%nat; 2%nat] [].
Definition h3 : ndarray := mk_ndarray [3%nat; 2%nat] (repeat 0%Q 6).

End Demo.

(** The optional arguments of [__call__] under their names, and an argument
    list in which the one called [key] is not given. *)
Definition optional_inputs (feats sids spembs lids : option ndarray)
    : list (string * option ndarray) :=
  [("feats", feats); ("sids", sids); ("spembs", spembs); ("lids", lids)].

Definition unless_named (key name : string) (value : option ndarray)
    : option ndarray :=
  if bool_decide (key = name) then None else value.

(** ** Vocabulary of the statements *)

(** The shapes of the three arrays of a returned dictionary. *)
Definition result_shapes (o : outcome (gmap string ndarray))
    : option (list nat * list nat * list nat) :=
  match o with
  | Done d =>
      match d !! "feat_gen", d !! "prob", d !! "att_w" with
      | Some f, Some p, Some w => Some (shape f, shape p, shape w)
      | _, _, _ => None
      end
  | _ => None
  end.

(** A computation that cannot run out of fuel. *)
Definition fuel_free {A} (c : M A) : Prop := forall s, (c s).1 <> OutOfFuel.

(** Fuel beyond what a run consumes does not change it. *)
Definition settled {A} (c c' : M A) : Prop :=
  forall s, (c s).1 <> OutOfFuel -> c' s = c s.

(** The number of rounds that is always enough for a text of [n] tokens. *)
Definition round_bound (m : Model) (n : nat) : nat :=
  Z.to_nat (Z.max 1 (Z.max (length_bound n (maxlenratio (config m)))
                           (length_bound n (minlenratio (config m))))).

(** How the accumulators and the log at the end of a run relate to those it
    started from: the same number of new entries everywhere, one decoder
    invocation for each, and every new frame block satisfies [frame_ok]. *)
Definition grown (frame_ok : ndarray -> Prop) (s s' : Self) (a a' : accs)
    : Prop :=
  exists new_outs new_probs new_att_ws,
    a'.1.1 = a.1.1 ++ new_outs /\
    a'.1.2 = a.1.2 ++ new_probs /\
    a'.2 = a.2 ++ new_att_ws /\
    calls s' = calls s ++ repeat Decoder (length new_outs) /\
    length new_probs = length new_outs /\
    length new_att_ws = length new_outs /\
    (1 <= length new_outs)%nat /\
    Forall frame_ok new_outs.

(** Two instances with the same cached attributes; their logs may differ. *)
Definition same_cache (s s' : Self) : Prop :=
  pre_compute_enc_h s = pre_compute_enc_h s' /\
  enc_h s = enc_h s' /\
  mask s = mask s'.

Definition any_cache (s s' : Self) : Prop := True.

(** From instances related by [R] the computation has the same outcome, and
    when that is a value the instances it leaves are related by [R']. *)
Definition respects {A} (R R' : Self -> Self -> Prop) (c : M A) : Prop :=
  forall s s', R s s' ->
    (c s).1 = (c s').1 /\
    (forall a, (c s).1 = Done a -> R' (c s).2 (c s').2).

Definition log_stable (R : Self -> Self -> Prop) : Prop :=
  forall id s s', R s s' -> R (log id s) (log id s').

(** What a call appends to the log when it runs to the end: the encoder, the
    predecoder, [n] decoder rounds, and the postdecoder when there is one. *)
Definition call_log (n : nat) (post : bool) : list session_id :=
  [Encoder; Predecoder] ++ repeat Decoder n ++ (if post then [Postdecoder] else []).

Definition has_postdecoder (m : Model) : bool :=
  match postdecoder m with
  | Some _ => true
  | None => false
  end.

(** One of the sessions of the model raises [e] on some input. *)
Definition session_raises (m : Model) (e : exn) : Prop :=
  (exists names feed, encoder m names feed = Raise e) \/
  (exists names feed, predecoder m names feed = Raise e) \/
  (exists names feed, decoder m names feed = Raise e) \/
  (exists post names feed, postdecoder m = Some post /\ post names feed = Raise e).

(** All three cached attributes are present. *)
Definition cached (s : Self) : Prop :=
  is_Some (pre_compute_enc_h s) /\ is_Some (enc_h s) /\ is_Some (mask s).

(** ** Further concrete values *)

Module Probe.

(** The decoder feed for two layers with cell states [7], [8] and hidden
    states [5], [6], on the instance [Demo.ready]. *)
Definition feed2 : gmap string ndarray :=
  dict_update ∅
    [("c_prev_0", Demo.vec [7%Q]); ("c_prev_1", Demo.vec [8%Q]);
     ("z_prev_0", Demo.vec [5%Q]); ("z_prev_1", Demo.vec [6%Q]);
     ("a_prev", Demo.att10);
     ("pceh", mk_ndarray [1%nat; 10%nat; 2%nat] (repeat 0%Q 20));
     ("enc_h", mk_ndarray [1%nat; 10%nat; 2%nat] (repeat 0%Q 20));
     ("mask", mk_ndarray [1%nat; 10%nat] (repeat 0%Q 10));
     ("prev_in", Demo.frame0)].

(** A decoder that returns the same six arrays whatever it is fed: a block
    of [r] frames, [r] stop probabilities of 1/10, and the states. *)
Definition steady (r : nat) : Session := fun _ _ =>
  Ok [mk_ndarray [1%nat; 2%nat; r] (repeat 0%Q (2 * r));
      Demo.vec (repeat (1 # 10)%Q r);
      Demo.att10;
      Demo.frame0;
      Demo.zeros11;
      Demo.zeros11].

(** The concrete model with another decoder, number of layers and
    postdecoder. *)
Definition model (maxr minr : Q) (rf : Z) (dec : Session) (layers : nat)
    (post : option Session) : Model :=
  {| config := {| maxlenratio := py_float maxr; minlenratio := py_float minr;
                  reduction_factor := rf; threshold := 1 # 2; odim := 2;
                  cfg_dlayers := layers; cfg_dunits := 1 |};
     encoder := Demo.enc; predecoder := Demo.pre;
     decoder := dec;
     postdecoder := post;
     input_names := ["text"];
     decoder_output_names := ["out"; "prob"; "a_prev"; "prev_out"; "c_0"; "z_0"] |}.

(** What a call on ten tokens returns and leaves behind when the decoder
    signals the end in round 3 and the postdecoder is [twice]. *)
Definition result3 : gmap string ndarray :=
  <[ "att_w" := mk_ndarray [3%nat; 10%nat] (repeat Demo.tenth 30) ]>
    (<[ "prob" := mk_ndarray [3%nat] [(1 # 10)%Q; (1 # 10)%Q; (9 # 10)%Q] ]>
       {[ "feat_gen" := mk_ndarray [1%nat; 2%nat; 3%nat]
                          [2%Q; 4%Q; 6%Q; 2%Q; 4%Q; 6%Q] ]}).

Definition after3 : Self :=
  {| pre_compute_enc_h := Some (mk_ndarray [1%nat; 10%nat; 2%nat] (repeat 0%Q 20));
     enc_h := Some (mk_ndarray [1%nat; 10%nat; 2%nat] (repeat 0%Q 20));
     mask := Some (mk_ndarray [1%nat; 10%nat] (repeat 0%Q 10));
     calls := [Encoder; Predecoder; Decoder; Decoder; Decoder; Postdecoder] |}.

(** A decoder that returns two arrays only. *)
Definition short : Session := fun _ _ =>
  Ok [mk_ndarray [1%nat; 2%nat; 1%nat] [0%Q; 0%Q]; Demo.vec [(1 # 10)%Q]].

(** What a call on ten tokens returns and leaves behind with the decoder
    [steady 2], reduction factor 2, [maxlen = 4] and the postdecoder
    [twice]. *)
Definition result2 : gmap string ndarray :=
  <[ "att_w" := mk_ndarray [2%nat; 10%nat] (repeat Demo.tenth 20) ]>
    (<[ "prob" := mk_ndarray [4%nat] (repeat (1 # 10)%Q 4) ]>
       {[ "feat_gen" := mk_ndarray [1%nat; 2%nat; 4%nat] (repeat 0%Q 8) ]}).

Definition after2 : Self :=
  {| pre_compute_enc_h := Some (mk_ndarray [1%nat; 10%nat; 2%nat] (repeat 0%Q 20));
     enc_h := Some (mk_ndarray [1%nat; 10%nat; 2%nat] (repeat 0%Q 20));
     mask := Some (mk_ndarray [1%nat; 10%nat] (repeat 0%Q 10));
     calls := [Encoder; Predecoder; Decoder; Decoder; Postdecoder] |}.

(** What a call on an empty text returns and leaves behind in the concrete
    model without postdecoder. *)
Definition no_text : ndarray := Demo.vec [].

Definition result_empty : gmap string ndarray :=
  <[ "att_w" := mk_ndarray [1%nat; 0%nat] [] ]>
    (<[ "prob" := mk_ndarray [1%nat] [(1 # 10)%Q] ]>
       {[ "feat_gen" := mk_ndarray [1%nat; 2%nat; 1%nat] [1%Q; 1%Q] ]}).

Definition after_empty : Self :=
  {| pre_compute_enc_h := Some (mk_ndarray [1%nat; 0%nat; 2%nat] []);
     enc_h := Some (mk_ndarray [1%nat; 0%nat; 2%nat] []);
     mask := Some (mk_ndarray [1%nat; 0%nat] []);
     calls := [Encoder; Predecoder; Decoder] |}.

(** A postdecoder that doubles every entry of the frame buffer. *)
Definition twice : Session := fun _ feed =>
  match feed !! "x" with
  | Some x => Ok [map_data (fun v => 2 * v)%Q x]
  | None => Raise (SessionError 3)
  end.

End Probe.

(** * Properties *)

(** ** Rounding *)


Lemma inject_Z_le (a b : Z) : a <= b -> (inject_Z a <= inject_Z b)%Q.
Proof. intros H. rewrite <- Zle_Qle. exact H. Qed.

Lemma inject_Z_lt (a b : Z) : a < b -> (inject_Z a < inject_Z b)%Q.
Proof. intros H. rewrite <- Zlt_Qlt. exact H. Qed.

Lemma pow2_pos e : (0 < pow2 e)%Q.
Proof. apply Qpower_0_lt. reflexivity. Qed.

Lemma pow2_add a b : (pow2 (a + b) == pow2 a * pow2 b)%Q.
Proof. apply Qpower_plus. discriminate. Qed.

Lemma pow2_le a b : a <= b -> (pow2 a <= pow2 b)%Q.
Proof. intros H. apply Qpower_le_compat_l; [exact H | discriminate]. Qed.

Lemma pow2_lt_inv a b : (pow2 a < pow2 b)%Q -> a < b.
Proof. intros H. apply (Qpower_lt_compat_l_inv 2); [exact H | reflexivity]. Qed.

Lemma pow2_Z k : 0 <= k -> (pow2 k == inject_Z (2 ^ k))%Q.
Proof. intros H. unfold pow2. rewrite Zpower_Qpower by exact H. reflexivity. Qed.

(** Rounding to the nearest integer is off by a half at most. *)
Lemma round_half_even_error q :
  (Qabs (inject_Z (round_half_even q) - q) <= 1 # 2)%Q.
Proof.
  unfold round_half_even.
  pose proof (Qfloor_le q) as Hlo. pose proof (Qlt_floor q) as Hhi.
  rewrite inject_Z_plus in Hhi. change (inject_Z 1) with 1%Q in Hhi.
  apply Qabs_Qle_condition.
  destruct (q - inject_Z (Qfloor q) ?= 1 # 2)%Q eqn:E.
  - apply Qeq_alt in E.
    destruct (Z.even (Qfloor q));
      [| rewrite inject_Z_plus; change (inject_Z 1) with 1%Q]; split; lra.
  - apply Qlt_alt in E. split; lra.
  - apply Qgt_alt in E. rewrite inject_Z_plus. change (inject_Z 1) with 1%Q.
    split; lra.
Qed.

Lemma round_half_even_Z q (k : Z) : (q == inject_Z k)%Q -> round_half_even q = k.
Proof.
  intros H. unfold round_half_even.
  assert (Qfloor q = k) as -> by (rewrite H; apply Qfloor_Z).
  assert ((q - inject_Z k ?= 1 # 2)%Q = Lt) as ->; [| reflexivity].
  apply (proj1 (Qlt_alt _ _)). rewrite H. lra.
Qed.

Lemma Qabs_frac q :
  (Qabs q == inject_Z (Z.abs (Qnum q)) / inject_Z (Zpos (Qden q)))%Q.
Proof.
  destruct q as [n d]. unfold Qabs. cbn [Qnum Qden].
  rewrite (Qmake_Qdiv (Z.abs n) d). reflexivity.
Qed.

(** [ilog2] finds the leading bit. *)
Lemma ilog2_spec q :
  ~ (q == 0)%Q -> (pow2 (ilog2 q) <= Qabs q /\ Qabs q < pow2 (ilog2 q + 1))%Q.
Proof.
  intros Hq. unfold ilog2.
  set (n := Z.abs (Qnum q)). set (d := Zpos (Qden q)).
  assert (0 < n) as Hn.
  { subst n. destruct q as [[| p | p] dd]; cbn; try lia.
    exfalso. apply Hq. reflexivity. }
  assert (0 < d) as Hd by (subst d; lia).
  destruct (Z.log2_spec n Hn) as [Hna Hnb].
  destruct (Z.log2_spec d Hd) as [Hda Hdb].
  set (a := Z.log2 n) in *. set (b := Z.log2 d) in *.
  assert (0 <= a) as Ha by apply Z.log2_nonneg.
  assert (0 <= b) as Hb by apply Z.log2_nonneg.
  pose proof (inject_Z_le _ _ Hna) as Qna. pose proof (inject_Z_lt _ _ Hnb) as Qnb.
  pose proof (inject_Z_le _ _ Hda) as Qda. pose proof (inject_Z_lt _ _ Hdb) as Qdb.
  rewrite <- pow2_Z in Qna, Qnb, Qda, Qdb by lia.
  assert (0 < inject_Z d)%Q as Qd by (apply (inject_Z_lt 0 d); exact Hd).
  assert (Qabs q * inject_Z d == inject_Z n)%Q as Hfrac.
  { rewrite Qabs_frac. fold n d. field. lra. }
  pose proof (pow2_pos (a - b)) as P0.
  pose proof (pow2_pos (a - b - 1)) as P1.
  pose proof (pow2_pos (a - b + 1)) as P2.
  pose proof (Qabs_nonneg q) as Habs.
  destruct (Qle_bool (pow2 (a - b)) (Qabs q)) eqn:E.
  - apply Qle_bool_iff in E. split; [exact E |].
    (* |q| * d = n < 2^(a+1) = 2^(a-b+1) * 2^b <= 2^(a-b+1) * d *)
    assert (pow2 (Z.succ a) == pow2 (a - b + 1) * pow2 b)%Q as Hsplit
      by (rewrite <- pow2_add; f_equiv; lia).
    apply (Qmult_lt_r _ _ (inject_Z d) Qd).
    rewrite Hfrac. eapply Qlt_le_trans; [exact Qnb |].
    rewrite Hsplit. apply Qmult_le_l; [exact P2 | exact Qda].
  - assert (Qabs q < pow2 (a - b))%Q as Hlt.
    { apply Qnot_le_lt. intros H. apply Qle_bool_iff in H. congruence. }
    replace (a - b - 1 + 1) with (a - b) by lia.
    split; [| exact Hlt].
    assert (pow2 a == pow2 (a - b - 1) * pow2 (Z.succ b))%Q as Hsplit
      by (rewrite <- pow2_add; f_equiv; lia).
    apply (Qmult_le_r _ _ (inject_Z d) Qd).
    rewrite Hfrac. eapply Qle_trans; [| exact Qna].
    rewrite Hsplit. apply Qmult_le_l; [exact P1 |]. apply Qlt_le_weak. exact Qdb.
Qed.

(** In the normal range rounding has a relative error of [2^-prec] at
    most. *)
Lemma round_to_error fmt q :
  ~ (q == 0)%Q ->
  (pow2 (emin fmt) <= Qabs q)%Q ->
  (Qabs (round_to fmt q - q) <= Qabs q * pow2 (- prec fmt))%Q.
Proof.
  intros Hq Hnormal. unfold round_to.
  destruct (Qeq_bool q 0) eqn:E; [apply Qeq_bool_iff in E; contradiction |].
  destruct (ilog2_spec q Hq) as [Hlo Hhi].
  assert (emin fmt <= ilog2 q) as He.
  { assert (emin fmt < ilog2 q + 1); [| lia].
    apply pow2_lt_inv. eapply Qle_lt_trans; eassumption. }
  rewrite Z.max_l by exact He.
  set (e := ilog2 q) in *.
  set (ulp := pow2 (e - prec fmt + 1)).
  rewrite Qred_correct.
  pose proof (pow2_pos (e - prec fmt + 1)) as Hulp. fold ulp in Hulp.
  pose proof (round_half_even_error (q / ulp)) as Herr.
  set (k := inject_Z (round_half_even (q / ulp))) in *.
  assert (k * ulp - q == (k - q / ulp) * ulp)%Q as -> by (field; lra).
  rewrite Qabs_Qmult, (Qabs_pos ulp) by lra.
  assert (ulp * (1 # 2) == pow2 e * pow2 (- prec fmt))%Q as Hhalf.
  { unfold ulp. rewrite <- pow2_add.
    replace (e - prec fmt + 1) with ((e + - prec fmt) + 1) by lia.
    rewrite (pow2_add (e + - prec fmt) 1). change (pow2 1) with 2%Q. field. }
  apply Qle_trans with (ulp * (1 # 2))%Q.
  - rewrite (Qmult_comm _ ulp). apply Qmult_le_l; [exact Hulp | exact Herr].
  - rewrite Hhalf. apply Qmult_le_r; [apply pow2_pos | exact Hlo].
Qed.

Lemma Qred_inject_Z (n : Z) : Qred (inject_Z n) = inject_Z n.
Proof.
  unfold Qred, inject_Z.
  pose proof (Z.ggcd_gcd n 1) as Hg.
  pose proof (Z.ggcd_correct_divisors n 1) as Hd.
  destruct (Z.ggcd n 1) as [g [aa bb]]. cbn [fst snd] in *.
  rewrite Z.gcd_1_r in Hg. subst g. destruct Hd as [Ha Hb].
  assert (aa = n) as -> by lia. assert (bb = 1) as -> by lia. reflexivity.
Qed.

(** An integer below [2^53] is a double. *)
Lemma round_to_binary64_int (n : Z) :
  0 <= n < 2 ^ 53 -> round_to binary64 (inject_Z n) = inject_Z n.
Proof.
  intros [Hn0 Hn]. unfold round_to.
  destruct (Qeq_bool (inject_Z n) 0) eqn:E.
  { apply Qeq_bool_iff in E. unfold Qeq in E. cbn in E.
    assert (n = 0) as -> by lia. reflexivity. }
  assert (~ (inject_Z n == 0)%Q) as Hq.
  { intros H. apply Qeq_bool_iff in H. congruence. }
  assert (0 < n) as Hpos.
  { destruct (Z.eq_dec n 0) as [-> |]; [exfalso; apply Hq; reflexivity | lia]. }
  destruct (ilog2_spec _ Hq) as [Hlo Hhi].
  assert (0 <= inject_Z n)%Q as Hnn by (apply (inject_Z_le 0 n); lia).
  rewrite (Qabs_pos _ Hnn) in Hlo, Hhi.
  set (e := ilog2 (inject_Z n)) in *.
  assert (e < 53) as He.
  { apply pow2_lt_inv. eapply Qle_lt_trans; [exact Hlo |].
    rewrite pow2_Z by lia. apply inject_Z_lt. exact Hn. }
  assert (-1 < e + 1) as He0.
  { apply pow2_lt_inv. eapply Qle_lt_trans; [| exact Hhi].
    change (pow2 (-1)) with (1 # 2)%Q.
    apply Qle_trans with 1%Q; [discriminate |]. apply (inject_Z_le 1 n). lia. }
  rewrite Z.max_l by (cbn [emin binary64]; lia).
  cbn [prec binary64].
  set (ulp := pow2 (e - 53 + 1)).
  pose proof (pow2_pos (e - 53 + 1)) as Hulp. fold ulp in Hulp.
  assert (inject_Z n / ulp == inject_Z (n * 2 ^ (52 - e)))%Q as Hint.
  { rewrite inject_Z_mult, <- pow2_Z by lia.
    assert (pow2 (52 - e) * ulp == 1)%Q as Hone.
    { unfold ulp. rewrite <- pow2_add. replace (52 - e + (e - 53 + 1)) with 0 by lia.
      reflexivity. }
    apply (Qmult_inj_r _ _ ulp); [lra |].
    rewrite <- Qmult_assoc, Hone. field. lra. }
  rewrite (round_half_even_Z _ _ Hint).
  transitivity (Qred (inject_Z n)); [| apply Qred_inject_Z].
  apply Qred_complete. rewrite <- Hint. field. lra.
Qed.

(** The weight of one of [l] positions as the code stores it, the float32
    nearest to the float64 nearest to [1 / l], is [1 / l] up to a relative
    error of [2^-23]. *)
Lemma stored_weight_error (l : Z) :
  1 <= l < 2 ^ 53 ->
  (Qabs (round_to binary32 (true_divide (1 - 0) l) - 1 / inject_Z l)
   <= (1 / inject_Z l) * (1 # 8388608))%Q.
Proof.
  intros [Hl1 Hl2]. unfold true_divide.
  rewrite (round_to_binary64_int l) by lia.
  assert (round_to binary64 ((1 - 0) / inject_Z l)
          = round_to binary64 (1 / inject_Z l)) as -> by reflexivity.
  set (q := (1 / inject_Z l)%Q).
  assert (0 < inject_Z l)%Q as Hlpos by (apply (inject_Z_lt 0 l); lia).
  assert (inject_Z l < inject_Z (2 ^ 53))%Q as Hlup by (apply inject_Z_lt; exact Hl2).
  assert (q * inject_Z l == 1)%Q as Hql by (unfold q; field; lra).
  assert (pow2 (-53) < q)%Q as Hqlo.
  { apply (Qmult_lt_r _ _ (inject_Z l) Hlpos). rewrite Hql.
    apply Qlt_le_trans with (pow2 (-53) * inject_Z (2 ^ 53))%Q.
    - apply Qmult_lt_l; [apply pow2_pos | exact Hlup].
    - vm_compute. discriminate. }
  assert (0 < q)%Q as Hqpos by (pose proof (pow2_pos (-53)); lra).
  assert (Qabs q == q)%Q as Habsq by (apply Qabs_pos; lra).
  assert (pow2 (emin binary64) <= Qabs q)%Q as Hn64.
  { rewrite Habsq. apply Qle_trans with (pow2 (-53)); [| lra].
    apply pow2_le. cbn. lia. }
  assert (~ q == 0)%Q as Hq0 by (intros H; rewrite H in Hqpos; discriminate).
  pose proof (round_to_error binary64 q Hq0 Hn64) as H64.
  change (pow2 (- prec binary64)) with (1 # 9007199254740992)%Q in H64.
  rewrite Habsq in H64.
  set (w64 := round_to binary64 q) in *.
  apply Qabs_Qle_condition in H64. destruct H64 as [H64a H64b].
  change (pow2 (-53)) with (1 # 9007199254740992)%Q in Hqlo.
  assert (0 < w64)%Q as Hwpos by lra.
  assert (Qabs w64 == w64)%Q as Habsw by (apply Qabs_pos; lra).
  assert (pow2 (emin binary32) <= Qabs w64)%Q as Hn32.
  { rewrite Habsw.
    apply Qle_trans with (1 # 18014398509481984)%Q; [vm_compute; discriminate | lra]. }
  assert (~ w64 == 0)%Q as Hw0 by (intros H; rewrite H in Hwpos; discriminate).
  pose proof (round_to_error binary32 w64 Hw0 Hn32) as H32.
  change (pow2 (- prec binary32)) with (1 # 16777216)%Q in H32.
  rewrite Habsw in H32.
  set (w := round_to binary32 w64) in *.
  apply Qabs_Qle_condition in H32. destruct H32 as [H32a H32b].
  apply Qabs_Qle_condition. split; lra.
Qed.

(** The bound a call works with is the number [length_bound]. *)
Lemma int_times_ok n ratio bound :
  int_times n ratio = Ok bound -> length_bound n ratio = bound.
Proof. intros H. unfold length_bound. rewrite H. reflexivity. Qed.


(** ** Computations that need no fuel *)

Lemma fuel_free_ret {A} (a : A) : fuel_free (ret a).
Proof. intros s. discriminate. Qed.

Lemma fuel_free_raise {A} (e : exn) : fuel_free (@raise A e).
Proof. intros s. discriminate. Qed.

Lemma fuel_free_lift {A} (r : result A) : fuel_free (lift r).
Proof. destruct r; [apply fuel_free_ret | apply fuel_free_raise]. Qed.

Lemma fuel_free_bind {A B} (c : M A) (k : A -> M B) :
  fuel_free c -> (forall a, fuel_free (k a)) -> fuel_free (bind c k).
Proof.
  intros Hc Hk s. unfold bind. specialize (Hc s).
  destruct (c s) as [[a | e |] s']; cbn in *.
  - apply Hk.
  - discriminate.
  - congruence.
Qed.

Lemma fuel_free_run id f names feed : fuel_free (run id f names feed).
Proof. intros s. unfold run. apply fuel_free_lift. Qed.

Lemma fuel_free_getattr field : fuel_free (getattr field).
Proof. intros s. unfold getattr. destruct (field s); discriminate. Qed.

Create HintDb fuel_free.
#[local] Hint Resolve fuel_free_ret fuel_free_raise fuel_free_lift
  fuel_free_run fuel_free_getattr : fuel_free.

Ltac fuel_free_steps :=
  repeat first
    [ apply fuel_free_bind; [| intros ? ]
    | solve [ auto with fuel_free ]
    | intros ?; discriminate ].

Lemma fuel_free_get_input_dec c_list z_list a_prev prev_in :
  fuel_free (get_input_dec c_list z_list a_prev prev_in).
Proof. unfold get_input_dec. fuel_free_steps. Qed.

Lemma fuel_free_init_state m x : fuel_free (init_state m x).
Proof. unfold init_state, set_pre_compute_enc_h, set_enc_h, set_mask. fuel_free_steps. Qed.

Lemma fuel_free_finish m a : fuel_free (finish m a).
Proof.
  destruct a as [[outs probs] att_ws]. unfold finish.
  apply fuel_free_bind; [auto with fuel_free | intros o].
  apply fuel_free_bind.
  - destruct (postdecoder m); fuel_free_steps.
  - intros o'. fuel_free_steps.
Qed.

(** ** Termination of the loop *)

(** With a positive reduction factor the index passes both bounds after
    finitely many rounds, and the first round at or beyond both is the
    last. *)
Lemma decode_loop_fuel_free m :
  1 <= reduction_factor (config m) ->
  forall fuel maxlen minlen idx c_list z_list a_prev prev_out outs probs att_ws,
    (1 <= fuel)%nat ->
    Z.max maxlen minlen - idx <= Z.of_nat fuel ->
    fuel_free (decode_loop m fuel maxlen minlen idx c_list z_list a_prev prev_out
                           outs probs att_ws).
Proof.
  intros Hrf fuel. induction fuel as [| fuel IH]; intros * Hpos Hle; [lia |].
  cbn [decode_loop].
  apply fuel_free_bind; [apply fuel_free_get_input_dec | intros feed].
  apply fuel_free_bind; [apply fuel_free_run | intros res].
  destruct res as [| out [| prob [| a_next [| out_next cz_states]]]];
    try apply fuel_free_raise.
  apply fuel_free_bind; [apply fuel_free_lift | intros cnt].
  set (idx' := idx + reduction_factor (config m)).
  destruct (Z.le_gt_cases (Z.max maxlen minlen) idx') as [Hreached | Hbelow].
  - assert ((maxlen <=? idx') = true) as -> by (apply Z.leb_le; lia).
    assert ((idx' <? minlen) = false) as -> by (apply Z.ltb_ge; lia).
    rewrite orb_true_r. apply fuel_free_ret.
  - assert (fuel_free
              (decode_loop m fuel maxlen minlen idx' (_split cz_states).1
                 (_split cz_states).2 a_next out_next (outs ++ [out])
                 (probs ++ [prob]) (att_ws ++ [a_next]))) as Hrec
      by (apply IH; lia).
    destruct ((0 <? cnt) || (maxlen <=? idx')); [| exact Hrec].
    destruct (idx' <? minlen); [exact Hrec | apply fuel_free_ret].
Qed.

Lemma call_fuel_free m text feats sids spembs lids n fuel :
  1 <= reduction_factor (config m) ->
  py_len text = Ok n ->
  (1 <= fuel)%nat ->
  Z.max (length_bound n (maxlenratio (config m)))
        (length_bound n (minlenratio (config m))) <= Z.of_nat fuel ->
  fuel_free (__call__ m fuel text feats sids spembs lids).
Proof.
  intros Hrf Hlen Hpos Hle. unfold __call__.
  apply fuel_free_bind; [apply fuel_free_lift | intros input_enc].
  apply fuel_free_bind; [apply fuel_free_run | intros hs].
  apply fuel_free_bind; [apply fuel_free_lift | intros h].
  rewrite Hlen. intros s. unfold bind at 1. cbn [lift ret].
  unfold length_bound in Hle.
  destruct (int_times n (maxlenratio (config m))) as [maxlen | e];
    [| discriminate].
  unfold bind at 1. cbn [lift ret].
  destruct (int_times n (minlenratio (config m))) as [minlen | e];
    [| discriminate].
  unfold bind at 1. cbn [lift ret].
  revert s. apply fuel_free_bind; [apply fuel_free_init_state |].
  intros [[[c_list z_list] a_prev] prev_out].
  apply fuel_free_bind; [| intros a; apply fuel_free_finish].
  apply decode_loop_fuel_free; [exact Hrf | exact Hpos | lia].
Qed.

Lemma settled_refl {A} (c : M A) : settled c c.
Proof. intros s _. reflexivity. Qed.

Lemma settled_bind {A B} (c : M A) (k k' : A -> M B) :
  (forall a, settled (k a) (k' a)) -> settled (bind c k) (bind c k').
Proof.
  intros Hk s. unfold bind. destruct (c s) as [[a | e |] s1]; cbn.
  - apply Hk.
  - reflexivity.
  - reflexivity.
Qed.

Lemma decode_loop_settled m extra :
  forall fuel maxlen minlen idx c_list z_list a_prev prev_out outs probs att_ws,
    settled (decode_loop m fuel maxlen minlen idx c_list z_list a_prev prev_out
                         outs probs att_ws)
            (decode_loop m (fuel + extra) maxlen minlen idx c_list z_list a_prev
                         prev_out outs probs att_ws).
Proof.
  intros fuel. induction fuel as [| fuel IH]; intros *.
  - intros s Hs. cbn in Hs. congruence.
  - cbn [decode_loop Nat.add].
    apply settled_bind; intros feed. apply settled_bind; intros res.
    destruct res as [| out [| prob [| a_next [| out_next cz_states]]]];
      try apply settled_refl.
    apply settled_bind; intros cnt.
    destruct ((0 <? cnt) || (maxlen <=? idx + reduction_factor (config m)));
      [destruct (idx + reduction_factor (config m) <? minlen) |];
      first [apply IH | apply settled_refl].
Qed.

Lemma call_settled m text feats sids spembs lids fuel extra :
  settled (__call__ m fuel text feats sids spembs lids)
          (__call__ m (fuel + extra) text feats sids spembs lids).
Proof.
  unfold __call__.
  apply settled_bind; intros input_enc. apply settled_bind; intros hs.
  apply settled_bind; intros h. apply settled_bind; intros n.
  apply settled_bind; intros maxlen. apply settled_bind; intros minlen.
  apply settled_bind; intros [[[c_list z_list] a_prev] prev_out].
  intros s Hs. unfold bind in *.
  pose proof (decode_loop_settled m extra fuel maxlen minlen 0
                c_list z_list a_prev prev_out [] [] [] s) as Hloop.
  destruct (decode_loop m fuel _ _ 0 c_list z_list a_prev prev_out [] [] [] s)
    as [[a | e |] s1] eqn:E; cbn in *.
  - rewrite Hloop by discriminate. reflexivity.
  - rewrite Hloop by discriminate. reflexivity.
  - congruence.
Qed.

Lemma call_outcome m text feats sids spembs lids n s :
  1 <= reduction_factor (config m) ->
  py_len text = Ok n ->
  (__call__ m (round_bound m n) text feats sids spembs lids s).1 <> OutOfFuel /\
  forall fuel, (round_bound m n <= fuel)%nat ->
    __call__ m fuel text feats sids spembs lids s
    = __call__ m (round_bound m n) text feats sids spembs lids s.
Proof.
  intros Hrf Hlen.
  assert ((__call__ m (round_bound m n) text feats sids spembs lids s).1 <> OutOfFuel)
    as Hfree.
  { apply (call_fuel_free m text feats sids spembs lids n); try assumption;
      unfold round_bound; lia. }
  split; [exact Hfree |].
  intros fuel Hfuel.
  replace fuel with (round_bound m n + (fuel - round_bound m n))%nat by lia.
  apply call_settled. exact Hfree.
Qed.

(** C1, as the code has it.  Also with [maxlen < minlen] the synthesis call
    comes to an end when the reduction factor is positive: the index grows
    every round, the round that reaches [minlen] is beyond [maxlen] and so
    is the last.  With [minlen] rounds of fuel (one at least) the call
    returns or raises, and more fuel gives the same outcome. *)
Theorem degenerate_bounds_terminate m text feats sids spembs lids n s :
  py_len text = Ok n ->
  length_bound n (maxlenratio (config m)) < length_bound n (minlenratio (config m)) ->
  1 <= reduction_factor (config m) ->
  let enough := Z.to_nat (Z.max 1 (length_bound n (minlenratio (config m)))) in
  (__call__ m enough text feats sids spembs lids s).1 <> OutOfFuel /\
  forall fuel, (enough <= fuel)%nat ->
    __call__ m fuel text feats sids spembs lids s
    = __call__ m enough text feats sids spembs lids s.
Proof.
  intros Hlen Hlt Hrf enough.
  assert (enough = round_bound m n) as ->
    by (unfold enough, round_bound; f_equal; lia).
  apply call_outcome; assumption.
Qed.

(** With [maxlen = 0 < minlen = 5] and reduction factor 1 the call on a text
    of ten tokens returns after five rounds. *)
Lemma degenerate_bounds_terminate_witness :
  let m := Demo.model 0 (1 # 2) 1 3 [] ["text"] in
  length_bound 10 (maxlenratio (config m)) = 0 /\
  length_bound 10 (minlenratio (config m)) = 5 /\
  (__call__ m 5 Demo.text10 None None None None fresh).1 <> OutOfFuel /\
  forall fuel, (5 <= fuel)%nat ->
    __call__ m fuel Demo.text10 None None None None fresh
    = __call__ m 5 Demo.text10 None None None None fresh.
Proof.
  intros m. split; [reflexivity |]. split; [reflexivity |].
  apply (degenerate_bounds_terminate m Demo.text10 None None None None 10%nat fresh).
  - reflexivity.
  - reflexivity.
  - discriminate.
Defined.

(** The claim of C1 as stated, an unbounded loop for some configuration with
    [maxlen < minlen] and a positive reduction factor, has no instance. *)
Lemma no_unbounded_loop :
  ~ exists m text feats sids spembs lids n s,
      py_len text = Ok n /\
      length_bound n (maxlenratio (config m)) < length_bound n (minlenratio (config m)) /\
      1 <= reduction_factor (config m) /\
      forall fuel, (__call__ m fuel text feats sids spembs lids s).1 = OutOfFuel.
Proof.
  intros (m & text & feats & sids & spembs & lids & n & s & Hlen & _ & Hrf & Hloop).
  destruct (call_outcome m text feats sids spembs lids n s Hrf Hlen) as [Hfree _].
  apply Hfree, Hloop.
Qed.

(** ** One round of the loop *)

Section Round.

Variable m : Model.
Variables (maxlen minlen idx : Z).
Variables (c_list z_list : list ndarray) (a_prev prev_out : ndarray).
Variables (outs probs att_ws : list ndarray).
Variable s : Self.

(** What a round that gets as far as the stopping test has seen: the decoder
    feed was built, the decoder answered with at least four outputs, and the
    count of line 95 evaluated. *)
Variables (feed : gmap string ndarray).
Variables (out prob a_next out_next : ndarray) (cz_states : list ndarray).
Variable cnt : Z.
Hypothesis Hfeed : get_input_dec c_list z_list a_prev prev_out s = (Done feed, s).
Hypothesis Hdec :
  decoder m (decoder_output_names m) feed
  = Ok (out :: prob :: a_next :: out_next :: cz_states).
Hypothesis Hcnt : stop_count (threshold (config m)) prob = Ok cnt.

Let idx' := idx + reduction_factor (config m).

Lemma round_unfold fuel :
  decode_loop m (S fuel) maxlen minlen idx c_list z_list a_prev prev_out
              outs probs att_ws s
  = (if (0 <? cnt) || (maxlen <=? idx') then
       if idx' <? minlen then
         decode_loop m fuel maxlen minlen idx' (_split cz_states).1
                     (_split cz_states).2 a_next out_next
                     (outs ++ [out]) (probs ++ [prob]) (att_ws ++ [a_next])
       else ret (outs ++ [out], probs ++ [prob], att_ws ++ [a_next])
     else
       decode_loop m fuel maxlen minlen idx' (_split cz_states).1
                   (_split cz_states).2 a_next out_next
                   (outs ++ [out]) (probs ++ [prob]) (att_ws ++ [a_next]))
      (log Decoder s).
Proof.
  cbn [decode_loop]. unfold bind at 1. rewrite Hfeed.
  unfold bind at 1, run. rewrite Hdec. cbn [lift ret].
  unfold bind at 1. rewrite Hcnt. cbn [lift ret]. fold idx'.
  reflexivity.
Qed.

(** C4. A round whose index has reached both [maxlen] and [minlen] is the
    last one, whatever stop probabilities the decoder returned: the loop
    hands over the accumulators without a further decoder invocation. *)
Theorem at_maxlen_stops fuel :
  maxlen <= idx' -> minlen <= idx' ->
  decode_loop m (S fuel) maxlen minlen idx c_list z_list a_prev prev_out
              outs probs att_ws s
  = (Done (outs ++ [out], probs ++ [prob], att_ws ++ [a_next]), log Decoder s).
Proof.
  intros Hmax Hmin. rewrite round_unfold.
  assert ((maxlen <=? idx') = true) as -> by (apply Z.leb_le; exact Hmax).
  assert ((idx' <? minlen) = false) as -> by (apply Z.ltb_ge; exact Hmin).
  rewrite orb_true_r. reflexivity.
Qed.

End Round.

(** In the concrete model with [maxlen = 2] and [minlen = 0], a round at
    index 2 in which the stop probability is 1/10 (threshold 1/2) ends the
    loop. *)
Lemma at_maxlen_stops_witness :
  let m := Demo.model (1 # 5) 0 1 7 [] ["text"] in
  stop_count (threshold (config m)) (Demo.vec [(1 # 10)%Q]) = Ok 0 /\
  decode_loop m 1 2 0 1 [Demo.zeros11] [Demo.zeros11] Demo.att10 Demo.frame0
              [] [] [] Demo.ready
  = (Done ([mk_ndarray [1%nat; 2%nat; 1%nat] [1%Q; 1%Q]],
           [Demo.vec [(1 # 10)%Q]], [Demo.att10]), log Decoder Demo.ready).
Proof.
  intros m. split; [reflexivity |].
  eapply (at_maxlen_stops m 2 0 1 [Demo.zeros11] [Demo.zeros11]
            Demo.att10 Demo.frame0 [] [] [] Demo.ready _
            (mk_ndarray [1%nat; 2%nat; 1%nat] [1%Q; 1%Q]) (Demo.vec [(1 # 10)%Q])
            Demo.att10 (mk_ndarray [1%nat; 2%nat] [1%Q; 1%Q])
            [mk_ndarray [1%nat; 1%nat] [1%Q]; Demo.zeros11] 0).
  - reflexivity.
  - reflexivity.
  - reflexivity.
  - vm_compute. discriminate.
  - vm_compute. discriminate.
Defined.

(** ** A reduction factor of zero

    What keeps the loop finite is the growth of the index.  In the concrete
    model with reduction factor 0 and [minlen = 5] the index stays at 0 and
    every round is followed by another. *)

Lemma demo_feed c z a p s pc eh mk :
  pre_compute_enc_h s = Some pc -> enc_h s = Some eh -> mask s = Some mk ->
  exists feed,
    get_input_dec [c] [z] a p s = (Done feed, s) /\
    feed !! "c_prev_0" = Some c /\
    feed !! "z_prev_0" = Some z /\
    feed !! "a_prev" = Some a.
Proof.
  intros Hp He Hm. unfold get_input_dec, bind, getattr. rewrite Hp, He, Hm.
  eexists. split; [reflexivity |]. repeat split; reflexivity.
Qed.

Lemma zero_reduction_factor_round maxr stop_at names maxlen :
  let m := Demo.model maxr (1 # 2) 0 stop_at [] names in
  forall fuel c z a p outs probs att_ws s pc eh mk,
    pre_compute_enc_h s = Some pc -> enc_h s = Some eh -> mask s = Some mk ->
    (decode_loop m fuel maxlen 5 0 [c] [z] a p outs probs att_ws s).1 = OutOfFuel.
Proof.
  intros m fuel. induction fuel as [| fuel IH]; intros * Hp He Hm; [reflexivity |].
  destruct (demo_feed c z a p s pc eh mk Hp He Hm) as (feed & Hfeed & Hc & Hz & Ha).
  assert (exists out prob out_next c',
            decoder m (decoder_output_names m) feed
            = Ok [out; prob; a; out_next; c'; z] /\
            stop_count (threshold (config m)) prob = Ok 0)
    as (out & prob & out_next & c' & Hdec & Hcnt).
  { cbn [m Demo.model decoder]. unfold Demo.dec. rewrite Hc, Hz, Ha.
    do 4 eexists. split; reflexivity. }
  rewrite (round_unfold m maxlen 5 0 [c] [z] a p outs probs att_ws s feed
             out prob a out_next [c'; z] 0 Hfeed Hdec Hcnt).
  change (0 + reduction_factor (config m)) with 0.
  change (0 <? 5) with true. change (_split [c'; z]) with ([c'], [z]).
  cbn [fst snd].
  destruct ((0 <? 0) || (maxlen <=? 0));
    (eapply IH; cbn [log pre_compute_enc_h enc_h mask]; eassumption).
Qed.

Lemma zero_reduction_factor_loops fuel :
  (__call__ (Demo.model 10 (1 # 2) 0 3 [] ["text"]) fuel Demo.text10
            None None None None fresh).1 = OutOfFuel.
Proof.
  set (m := Demo.model 10 (1 # 2) 0 3 [] ["text"]).
  assert (__call__ m fuel Demo.text10 None None None None fresh
          = bind (decode_loop m fuel 100 5 0 [Demo.zeros11] [Demo.zeros11]
                              Demo.att10 Demo.frame0 [] [] [])
                 (finish m) Demo.ready) as -> by reflexivity.
  unfold bind.
  pose proof (zero_reduction_factor_round 10 3 ["text"] 100 fuel Demo.zeros11
                Demo.zeros11 Demo.att10 Demo.frame0 [] [] [] Demo.ready
                _ _ _ eq_refl eq_refl eq_refl) as Hloop.
  fold m in Hloop.
  destruct (decode_loop m fuel 100 5 0 _ _ _ _ _ _ _ Demo.ready) as [[a | e |] s1];
    cbn in Hloop; try discriminate.
  reflexivity.
Qed.

(** ** State initialisation *)

Lemma make_pad_mask_single (l : nat) :
  make_pad_mask [l] = mk_ndarray [1%nat; l] (repeat 0%Q l).
Proof.
  unfold make_pad_mask. cbn [fold_right length flat_map].
  rewrite Nat.max_0_r, app_nil_r. f_equal.
  assert (forall k a, (a + k <= l)%nat ->
            map (fun i => if (l <=? i)%nat then 1%Q else 0%Q) (seq a k)
            = repeat 0%Q k) as Hrow.
  { intros k. induction k as [| k IH]; intros a Hle; [reflexivity |].
    cbn [seq map repeat]. rewrite IH by lia.
    destruct (Nat.leb_spec l a); [lia | reflexivity]. }
  apply Hrow. lia.
Qed.

Lemma map_repeat {A B} (f : A -> B) (a : A) (n : nat) :
  map f (repeat a n) = repeat (f a) n.
Proof. induction n as [| n IH]; [reflexivity |]. cbn. rewrite IH. reflexivity. Qed.

Section InitState.

Variable m : Model.
Variable x : ndarray.
Variables (l : nat) (rest : list nat).
Hypothesis Hshape : shape x = l :: rest.

Let zeros : ndarray := np_zeros [1%nat; dunits m].
Let x_row : ndarray := mk_ndarray (1%nat :: shape x) (data x).
(** The weight [(1.0 - 0) / l] of a valid position, as a float32. *)
Let weight : Q := round_to binary32 (true_divide (1 - 0) (Z.of_nat l)).

Lemma expand_front_ok : expand_front x = Ok x_row.
Proof. unfold expand_front. rewrite Hshape. subst x_row. rewrite Hshape. reflexivity. Qed.

Lemma zero_of_ok : zero_of m x = Ok zeros.
Proof. unfold zero_of. rewrite expand_front_ok. reflexivity. Qed.

Lemma append_layers_ok n c_list z_list :
  append_layers m n x c_list z_list
  = Ok (c_list ++ repeat zeros n, z_list ++ repeat zeros n).
Proof.
  revert c_list z_list. induction n as [| n IH]; intros c_list z_list.
  - cbn. rewrite !app_nil_r. reflexivity.
  - cbn [append_layers]. rewrite zero_of_ok. cbn [rbind]. rewrite IH.
    cbn [repeat]. rewrite <- !app_assoc. reflexivity.
Qed.

Lemma get_att_prev_ok :
  get_att_prev x = Ok (mk_ndarray [1%nat; l] (repeat weight l)).
Proof.
  unfold get_att_prev, shape0. rewrite Hshape. cbn [rbind].
  rewrite make_pad_mask_single. unfold astype_float32, map_data.
  cbn [shape data]. rewrite !map_repeat. reflexivity.
Qed.

(** The whole of [init_state] when the predecoder answers. *)
Lemma init_state_done s p ps :
  predecoder m ["pre_compute_enc_h"] {[ "enc_h" := x_row ]} = Ok (p :: ps) ->
  init_state m x s
  = (Done (repeat zeros (S (dlayers m - 1)), repeat zeros (S (dlayers m - 1)),
           mk_ndarray [1%nat; l] (repeat weight l),
           np_zeros [1%nat; odim (config m)]),
     {| pre_compute_enc_h := Some p;
        enc_h := Some x_row;
        mask := Some (mk_ndarray [1%nat; l] (repeat 0%Q l));
        calls := calls s ++ [Predecoder] |}).
Proof.
  intros Hpre. unfold init_state, bind.
  rewrite zero_of_ok. cbn [lift ret].
  rewrite append_layers_ok. cbn [lift ret].
  rewrite get_att_prev_ok. cbn [lift ret].
  rewrite expand_front_ok. cbn [lift ret].
  unfold run. rewrite Hpre. cbn [lift ret first_output].
  unfold shape0. rewrite Hshape.
  cbn [lift ret set_pre_compute_enc_h set_enc_h set_mask log
       pre_compute_enc_h enc_h mask calls fst snd app].
  rewrite make_pad_mask_single.
  unfold astype_float32, map_data. cbn [shape data]. rewrite !map_repeat.
  reflexivity.
Qed.

(** When the predecoder fails, so does [init_state], with the same error and
    no attribute written. *)
Lemma init_state_raised s e :
  predecoder m ["pre_compute_enc_h"] {[ "enc_h" := x_row ]} = Raise e ->
  init_state m x s = (Raised e, log Predecoder s).
Proof.
  intros Hpre. unfold init_state, bind.
  rewrite zero_of_ok. cbn [lift ret].
  rewrite append_layers_ok. cbn [lift ret].
  rewrite get_att_prev_ok. cbn [lift ret].
  rewrite expand_front_ok. cbn [lift ret].
  unfold run. rewrite Hpre. reflexivity.
Qed.

(** When the predecoder returns no output, the subscript [[0]] fails. *)
Lemma init_state_no_output s :
  predecoder m ["pre_compute_enc_h"] {[ "enc_h" := x_row ]} = Ok [] ->
  init_state m x s = (Raised IndexError, log Predecoder s).
Proof.
  intros Hpre. unfold init_state, bind.
  rewrite zero_of_ok. cbn [lift ret].
  rewrite append_layers_ok. cbn [lift ret].
  rewrite get_att_prev_ok. cbn [lift ret].
  rewrite expand_front_ok. cbn [lift ret].
  unfold run. rewrite Hpre. reflexivity.
Qed.

End InitState.

Lemma Forall_repeat_intro {A} (P : A -> Prop) (a : A) (n : nat) :
  P a -> Forall P (repeat a n).
Proof. intros Ha. induction n; cbn; constructor; assumption. Qed.

Lemma sum_repeat (w : Q) (n : nat) :
  (fold_right Qplus 0 (repeat w n) == inject_Z (Z.of_nat n) * w)%Q.
Proof.
  induction n as [| n IH].
  - cbn. ring.
  - cbn [repeat fold_right]. rewrite IH, Nat2Z.inj_succ.
    unfold Z.succ. rewrite inject_Z_plus. ring.
Qed.

(** C2, as the code has it.  [init_state] does not look at the length: for
    an encoder output with a leading axis of any length, zero included, it
    returns a state when the predecoder returns an output, and when the
    predecoder fails it passes that failure on. *)
Theorem init_state_any_length m x l rest s :
  shape x = l :: rest ->
  match predecoder m ["pre_compute_enc_h"]
          {[ "enc_h" := mk_ndarray (1%nat :: shape x) (data x) ]} with
  | Ok (p :: _) =>
      exists c_list z_list a prev_out cache,
        init_state m x s = (Done (c_list, z_list, a, prev_out), cache) /\
        shape a = [1%nat; l] /\ pre_compute_enc_h cache = Some p
  | Ok [] => init_state m x s = (Raised IndexError, log Predecoder s)
  | Raise e => init_state m x s = (Raised e, log Predecoder s)
  end.
Proof.
  intros Hshape.
  destruct (predecoder m _ _) as [[| p ps] | e] eqn:Hpre.
  - apply (init_state_no_output m x l rest Hshape s Hpre).
  - rewrite (init_state_done m x l rest Hshape s p ps Hpre).
    do 5 eexists. split; [reflexivity |]. split; reflexivity.
  - apply (init_state_raised m x l rest Hshape s e Hpre).
Qed.

(** In the concrete model an encoder output of ten positions initialises. *)
Lemma init_state_any_length_witness :
  exists c_list z_list a prev_out cache,
    init_state (Demo.model 10 0 1 3 [] ["text"]) Demo.h10 fresh
    = (Done (c_list, z_list, a, prev_out), cache) /\
    shape a = [1%nat; 10%nat] /\
    pre_compute_enc_h cache
    = Some (mk_ndarray [1%nat; 10%nat; 2%nat] (repeat 0%Q 20)).
Proof.
  apply (init_state_any_length (Demo.model 10 0 1 3 [] ["text"]) Demo.h10
           10%nat [2%nat] fresh).
  reflexivity.
Defined.

(** The claim of C2 as stated fails at [L = 0]: an encoder output without
    positions initialises the state, with an empty attention row, and
    nothing is raised. *)
Lemma empty_input_initialises :
  shape0 Demo.h_empty = Ok 0%nat /\
  init_state (Demo.model 10 0 1 3 [] ["text"]) Demo.h_empty fresh
  = (Done ([Demo.zeros11], [Demo.zeros11], mk_ndarray [1%nat; 0%nat] [],
           Demo.frame0),
     {| pre_compute_enc_h := Some (mk_ndarray [1%nat; 0%nat; 2%nat] []);
        enc_h := Some (mk_ndarray [1%nat; 0%nat; 2%nat] []);
        mask := Some (mk_ndarray [1%nat; 0%nat] []);
        calls := [Predecoder] |}).
Proof. split; reflexivity. Qed.

(** C7, as the code has it.  For an encoder output of [l >= 1] positions
    and [dlayers >= 1], [init_state] (given that the predecoder answers)
    returns cell and hidden lists of exactly [dlayers] arrays, each a row of
    [dunits] zeros, and an attention row of [l] equal entries.  The entry is
    not [1/l] but the float32 nearest to the float64 quotient [1.0 / l]: it
    is within a relative error of [2^-23] of [1/l], and the entries add up
    to 1 within [2^-23].  The length is one that float64 holds exactly. *)
Theorem initial_state_shape m x l rest s p ps :
  shape x = l :: rest ->
  (1 <= l)%nat ->
  Z.of_nat l < 2 ^ 53 ->
  (1 <= dlayers m)%nat ->
  predecoder m ["pre_compute_enc_h"]
    {[ "enc_h" := mk_ndarray (1%nat :: shape x) (data x) ]} = Ok (p :: ps) ->
  exists c_list z_list a prev_out cache w,
    init_state m x s = (Done (c_list, z_list, a, prev_out), cache) /\
    length c_list = dlayers m /\
    length z_list = dlayers m /\
    Forall (fun v => shape v = [1%nat; dunits m] /\ data v = repeat 0%Q (dunits m))
           (c_list ++ z_list) /\
    shape a = [1%nat; l] /\
    data a = repeat w l /\
    w = round_to binary32 (round_to binary64 (1 / inject_Z (Z.of_nat l))) /\
    (Qabs (w - 1 / inject_Z (Z.of_nat l))
     <= (1 / inject_Z (Z.of_nat l)) * (1 # 8388608))%Q /\
    (Qabs (fold_right Qplus 0 (data a) - 1) <= 1 # 8388608)%Q.
Proof.
  intros Hshape Hl Hbig Hlayers Hpre.
  rewrite (init_state_done m x l rest Hshape s p ps Hpre).
  do 5 eexists. exists (round_to binary32 (true_divide (1 - 0) (Z.of_nat l))).
  split; [reflexivity |].
  assert (S (dlayers m - 1) = dlayers m) as -> by lia.
  cbn [shape data].
  pose proof (stored_weight_error (Z.of_nat l) ltac:(lia)) as Herr.
  assert (0 < inject_Z (Z.of_nat l))%Q as Hpos by (apply (inject_Z_lt 0); lia).
  split; [apply repeat_length |]. split; [apply repeat_length |].
  split.
  { apply Forall_app. split; apply Forall_repeat_intro;
      cbn [np_zeros shape data prod_list fold_right];
      (split; [reflexivity | f_equal; lia]). }
  split; [reflexivity |]. split; [reflexivity |].
  split.
  { unfold true_divide. rewrite round_to_binary64_int by lia. reflexivity. }
  split; [exact Herr |].
  set (w := round_to binary32 (true_divide (1 - 0) (Z.of_nat l))) in *.
  set (len := inject_Z (Z.of_nat l)) in *.
  rewrite sum_repeat. fold len.
  assert (len * w - 1 == len * (w - 1 / len))%Q as -> by (field; lra).
  rewrite Qabs_Qmult, (Qabs_pos len) by lra.
  apply Qle_trans with (len * (1 / len * (1 # 8388608)))%Q.
  - apply Qmult_le_l; [exact Hpos | exact Herr].
  - apply Qle_lteq. right. field. lra.
Qed.

(** In the concrete model: one layer of one unit, ten positions that weigh
    the float32 nearest to 0.1 each. *)
Lemma initial_state_shape_witness :
  let m := Demo.model 10 0 1 3 [] ["text"] in
  exists c_list z_list a prev_out cache w,
    init_state m Demo.h10 fresh = (Done (c_list, z_list, a, prev_out), cache) /\
    length c_list = 1%nat /\
    length z_list = 1%nat /\
    Forall (fun v => shape v = [1%nat; 1%nat] /\ data v = [0%Q])
           (c_list ++ z_list) /\
    shape a = [1%nat; 10%nat] /\
    data a = repeat w 10 /\
    w = round_to binary32 (round_to binary64 (1 / inject_Z 10)) /\
    (Qabs (w - 1 / inject_Z 10) <= (1 / inject_Z 10) * (1 # 8388608))%Q /\
    (Qabs (fold_right Qplus 0 (data a) - 1) <= 1 # 8388608)%Q.
Proof.
  intros m.
  apply (initial_state_shape m Demo.h10 10%nat [2%nat] fresh
           (mk_ndarray [1%nat; 10%nat; 2%nat] (repeat 0%Q 20)) []).
  - reflexivity.
  - lia.
  - vm_compute. reflexivity.
  - vm_compute. lia.
  - vm_compute. reflexivity.
Defined.

(** The claim of C7 as stated fails at [L = 3] with one layer: each of the
    three stored weights is 11184811/33554432, which is not 1/3, and they
    add up to 1 + 2^-25, which is not 1. *)
Lemma three_weights_exceed_one :
  let m := Demo.model 10 0 1 3 [] ["text"] in
  shape0 Demo.h3 = Ok 3%nat /\
  dlayers m = 1%nat /\
  exists c_list z_list a prev_out cache,
    init_state m Demo.h3 fresh = (Done (c_list, z_list, a, prev_out), cache) /\
    data a = repeat (11184811 # 33554432)%Q 3 /\
    ~ (11184811 # 33554432 == 1 / inject_Z 3)%Q /\
    (fold_right Qplus 0 (data a) == 33554433 # 33554432)%Q /\
    ~ (fold_right Qplus 0 (data a) == 1)%Q.
Proof.
  intros m. split; [reflexivity |]. split; [reflexivity |].
  do 5 eexists. split; [vm_compute; reflexivity |].
  cbn [data]. split; [reflexivity |].
  split; [intros H; vm_compute in H; discriminate |].
  split; [reflexivity |].
  intros H. vm_compute in H. discriminate.
Qed.

(** ** Unpacking the recurrent state *)

(** C5, as the code has it.  [_split] cuts the flat list at index
    [len // 2] and never fails: the two parts make up the list again, the
    cell part has [len // 2] entries and the hidden part the others, so the
    parts are equally long exactly for an even length, and both have
    [dlayers] entries when the length is [2 * dlayers].  Nothing is compared
    with [dlayers]. *)
Theorem split_at_midpoint (status_lists : list ndarray) :
  let c_list := (_split status_lists).1 in
  let z_list := (_split status_lists).2 in
  c_list ++ z_list = status_lists /\
  length c_list = (length status_lists / 2)%nat /\
  length z_list = (length status_lists - length status_lists / 2)%nat /\
  (length c_list = length z_list <-> Nat.even (length status_lists) = true) /\
  (forall d, length status_lists = (2 * d)%nat ->
             length c_list = d /\ length z_list = d).
Proof.
  cbn zeta. unfold _split. cbn [fst snd].
  set (n := length status_lists).
  assert (n / 2 <= n)%nat as Hhalf by (apply Nat.Div0.div_le_upper_bound; lia).
  assert (length (firstn (n / 2) status_lists) = (n / 2)%nat) as Hc
    by (rewrite length_firstn; fold n; lia).
  assert (length (skipn (n / 2) status_lists) = (n - n / 2)%nat) as Hz
    by (rewrite length_skipn; reflexivity).
  rewrite Hc, Hz.
  pose proof (Nat.div_mod_eq n 2) as Hdm.
  pose proof (Nat.mod_upper_bound n 2 ltac:(lia)) as Hmod.
  split; [apply firstn_skipn |].
  split; [reflexivity |]. split; [reflexivity |]. split.
  - split.
    + intros Heq. apply Nat.even_spec. exists (n / 2)%nat. lia.
    + intros Hev. apply Nat.even_spec in Hev. destruct Hev as [k Hk].
      assert (n / 2 = k)%nat as ->
        by (rewrite Hk, Nat.mul_comm; apply Nat.div_mul; lia).
      lia.
  - intros d Hd.
    assert (n / 2 = d)%nat as ->
      by (rewrite Hd, Nat.mul_comm; apply Nat.div_mul; lia).
    lia.
Qed.

(** The claim of C5 as stated fails for a decoder of one layer that returns
    three trailing arrays: the split is 1 against 2, the round raises
    nothing, the next round marshals the uneven lists, and the loop
    returns. *)
Lemma uneven_state_list_accepted :
  let m := Demo.model (1 # 5) 0 1 7 [Demo.zeros11] ["text"] in
  let k1 := mk_ndarray [1%nat; 1%nat] [1%Q] in
  dlayers m = 1%nat /\
  (exists feed,
     get_input_dec [Demo.zeros11] [Demo.zeros11] Demo.att10 Demo.frame0 Demo.ready
     = (Done feed, Demo.ready) /\
     decoder m (decoder_output_names m) feed
     = Ok [mk_ndarray [1%nat; 2%nat; 1%nat] [1%Q; 1%Q]; Demo.vec [(1 # 10)%Q];
           Demo.att10; mk_ndarray [1%nat; 2%nat] [1%Q; 1%Q];
           k1; Demo.zeros11; Demo.zeros11]) /\
  _split [k1; Demo.zeros11; Demo.zeros11] = ([k1], [Demo.zeros11; Demo.zeros11]) /\
  decode_loop m 2 2 0 0 [Demo.zeros11] [Demo.zeros11] Demo.att10 Demo.frame0
              [] [] [] Demo.ready
  = (Done ([mk_ndarray [1%nat; 2%nat; 1%nat] [1%Q; 1%Q];
            mk_ndarray [1%nat; 2%nat; 1%nat] [2%Q; 2%Q]],
           [Demo.vec [(1 # 10)%Q]; Demo.vec [(1 # 10)%Q]],
           [Demo.att10; Demo.att10]),
     log Decoder (log Decoder Demo.ready)).
Proof.
  intros m k1. split; [reflexivity |]. split.
  - eexists. split; reflexivity.
  - split; reflexivity.
Qed.

(** ** The accumulators *)

Lemma getattr_state field s : (getattr field s).2 = s.
Proof. unfold getattr. destruct (field s); reflexivity. Qed.

Lemma get_input_dec_state c_list z_list a_prev prev_in s :
  (get_input_dec c_list z_list a_prev prev_in s).2 = s.
Proof.
  unfold get_input_dec, bind, getattr, ret.
  destruct (pre_compute_enc_h s), (enc_h s), (mask s); reflexivity.
Qed.

Section Accumulators.

Variable m : Model.
(** What is known of every frame block the decoder returns. *)
Variable frame_ok : ndarray -> Prop.
Hypothesis Hframes :
  forall names feed out rest,
    decoder m names feed = Ok (out :: rest) -> frame_ok out.

Lemma grown_last s out prob a_next outs probs att_ws :
  frame_ok out ->
  grown frame_ok s (log Decoder s) (outs, probs, att_ws)
        (outs ++ [out], probs ++ [prob], att_ws ++ [a_next]).
Proof.
  intros Hout. exists [out], [prob], [a_next]. cbn [length repeat log calls fst snd].
  repeat split; try reflexivity; try lia.
  constructor; [assumption | constructor].
Qed.

Lemma grown_step s s' out prob a_next outs probs att_ws a' :
  frame_ok out ->
  grown frame_ok (log Decoder s) s'
        (outs ++ [out], probs ++ [prob], att_ws ++ [a_next]) a' ->
  grown frame_ok s s' (outs, probs, att_ws) a'.
Proof.
  intros Hout (no & np & na & Ho & Hp & Ha & Hcalls & Hlp & Hla & _ & Hall).
  cbn [fst snd] in *.
  exists (out :: no), (prob :: np), (a_next :: na).
  cbn [fst snd app length repeat].
  rewrite Ho, Hp, Ha, Hcalls, <- !app_assoc. cbn [log calls app].
  repeat split; try reflexivity; try lia.
  - rewrite <- app_assoc. reflexivity.
  - constructor; assumption.
Qed.

(** Every round appends one entry to each accumulator and invokes the
    decoder once. *)
Lemma decode_loop_grows :
  forall fuel maxlen minlen idx c_list z_list a_prev prev_out outs probs att_ws s
         a' s',
    decode_loop m fuel maxlen minlen idx c_list z_list a_prev prev_out
                outs probs att_ws s
    = (Done a', s') ->
    grown frame_ok s s' (outs, probs, att_ws) a'.
Proof.
  intros fuel. induction fuel as [| fuel IH]; intros * Hrun; [discriminate |].
  cbn [decode_loop] in Hrun. unfold bind at 1 in Hrun.
  pose proof (get_input_dec_state c_list z_list a_prev prev_out s) as Hst.
  destruct (get_input_dec c_list z_list a_prev prev_out s) as [[feed | e |] s1];
    try discriminate.
  cbn in Hst. subst s1.
  unfold bind at 1, run in Hrun.
  destruct (decoder m (decoder_output_names m) feed)
    as [[| out [| prob [| a_next [| out_next cz_states]]]] | e] eqn:Hdec;
    try discriminate.
  cbn [lift ret] in Hrun. unfold bind at 1 in Hrun.
  destruct (stop_count (threshold (config m)) prob) as [cnt | e];
    try discriminate.
  cbn [lift ret] in Hrun.
  assert (frame_ok out) as Hout by (eapply Hframes; exact Hdec).
  destruct ((0 <? cnt) || (maxlen <=? idx + reduction_factor (config m)));
    [destruct (idx + reduction_factor (config m) <? minlen) |].
  - apply (grown_step s s' out prob a_next); [exact Hout |].
    eapply IH. exact Hrun.
  - injection Hrun as <- <-. apply grown_last. exact Hout.
  - apply (grown_step s s' out prob a_next); [exact Hout |].
    eapply IH. exact Hrun.
Qed.

End Accumulators.

(** C3. A round whose index (the index before it plus the reduction factor)
    is below [minlen] does not end the loop, whatever stop probabilities the
    decoder returned and whatever [maxlen].  With fuel for this round alone
    the run is cut off after its one decoder invocation; with more fuel it
    goes on as the loop started afresh from the updated state; and a run
    that returns has been through at least one more round, so its
    accumulators hold this round's entries and more. *)
Theorem below_minlen_continues m maxlen minlen idx c_list z_list a_prev prev_out
    outs probs att_ws s feed out prob a_next out_next cz_states cnt :
  get_input_dec c_list z_list a_prev prev_out s = (Done feed, s) ->
  decoder m (decoder_output_names m) feed
  = Ok (out :: prob :: a_next :: out_next :: cz_states) ->
  stop_count (threshold (config m)) prob = Ok cnt ->
  idx + reduction_factor (config m) < minlen ->
  let rounds fuel :=
    decode_loop m fuel maxlen minlen idx c_list z_list a_prev prev_out
                outs probs att_ws s in
  rounds 1%nat = (OutOfFuel, log Decoder s) /\
  (forall fuel,
     rounds (S fuel)
     = decode_loop m fuel maxlen minlen (idx + reduction_factor (config m))
                   (_split cz_states).1 (_split cz_states).2 a_next out_next
                   (outs ++ [out]) (probs ++ [prob]) (att_ws ++ [a_next])
                   (log Decoder s)) /\
  (forall fuel outs' probs' att_ws' s',
     rounds fuel = (Done (outs', probs', att_ws'), s') ->
     exists more_outs more_probs more_att_ws,
       outs' = outs ++ out :: more_outs /\
       probs' = probs ++ prob :: more_probs /\
       att_ws' = att_ws ++ a_next :: more_att_ws /\
       (1 <= length more_outs)%nat /\
       length more_probs = length more_outs /\
       length more_att_ws = length more_outs /\
       calls s' = calls s ++ Decoder :: repeat Decoder (length more_outs)).
Proof.
  intros Hfeed Hdec Hcnt Hlt rounds.
  assert (forall fuel,
            rounds (S fuel)
            = decode_loop m fuel maxlen minlen (idx + reduction_factor (config m))
                (_split cz_states).1 (_split cz_states).2 a_next out_next
                (outs ++ [out]) (probs ++ [prob]) (att_ws ++ [a_next])
                (log Decoder s)) as Hnext.
  { intros fuel. unfold rounds.
    rewrite (round_unfold m maxlen minlen idx c_list z_list a_prev prev_out
               outs probs att_ws s feed out prob a_next out_next cz_states cnt
               Hfeed Hdec Hcnt).
    assert ((idx + reduction_factor (config m) <? minlen) = true) as ->
      by (apply Z.ltb_lt; exact Hlt).
    destruct ((0 <? cnt) || (maxlen <=? idx + reduction_factor (config m)));
      reflexivity. }
  split; [rewrite Hnext; reflexivity |]. split; [exact Hnext |].
  intros [| fuel] outs' probs' att_ws' s' Hrun; [discriminate Hrun |].
  rewrite Hnext in Hrun.
  destruct (decode_loop_grows m (fun _ => True) (fun _ _ _ _ _ => I)
              _ _ _ _ _ _ _ _ _ _ _ _ _ _ Hrun)
    as (no & np & na & Ho & Hp & Ha & Hcalls & Hlp & Hla & Hpos & _).
  cbn [fst snd log calls] in *.
  exists no, np, na. rewrite Ho, Hp, Ha, Hcalls, <- !app_assoc.
  repeat split; try assumption.
Qed.

(** In the concrete model with [minlen = 5], a first round in which the
    stop probability is 9/10 (threshold 1/2) does not end the loop. *)
Lemma below_minlen_continues_witness :
  let m := Demo.model 10 (1 # 2) 1 1 [] ["text"] in
  let rounds fuel :=
    decode_loop m fuel 100 5 0 [Demo.zeros11] [Demo.zeros11] Demo.att10
                Demo.frame0 [] [] [] Demo.ready in
  let out := mk_ndarray [1%nat; 2%nat; 1%nat] [1%Q; 1%Q] in
  let prob := Demo.vec [(9 # 10)%Q] in
  stop_count (threshold (config m)) prob = Ok 1 /\
  rounds 1%nat = (OutOfFuel, log Decoder Demo.ready) /\
  (forall fuel,
     rounds (S fuel)
     = decode_loop m fuel 100 5 1 [mk_ndarray [1%nat; 1%nat] [1%Q]] [Demo.zeros11]
                   Demo.att10 (mk_ndarray [1%nat; 2%nat] [1%Q; 1%Q])
                   [out] [prob] [Demo.att10] (log Decoder Demo.ready)) /\
  (forall fuel outs' probs' att_ws' s',
     rounds fuel = (Done (outs', probs', att_ws'), s') ->
     exists more_outs more_probs more_att_ws,
       outs' = [] ++ out :: more_outs /\
       probs' = [] ++ prob :: more_probs /\
       att_ws' = [] ++ Demo.att10 :: more_att_ws /\
       (1 <= length more_outs)%nat /\
       length more_probs = length more_outs /\
       length more_att_ws = length more_outs /\
       calls s' = calls Demo.ready ++ Decoder :: repeat Decoder (length more_outs)).
Proof.
  intros m rounds out prob. split; [reflexivity |].
  eapply (below_minlen_continues m 100 5 0 [Demo.zeros11] [Demo.zeros11]
            Demo.att10 Demo.frame0 [] [] [] Demo.ready _
            out prob Demo.att10 (mk_ndarray [1%nat; 2%nat] [1%Q; 1%Q])
            [mk_ndarray [1%nat; 1%nat] [1%Q]; Demo.zeros11] 1).
  - reflexivity.
  - reflexivity.
  - reflexivity.
  - reflexivity.
Defined.

(** A call that returns has run the loop from index 0 with empty
    accumulators, and the loop has handed its accumulators to [finish]. *)
Lemma call_done_runs_loop m fuel text feats sids spembs lids s d s' :
  __call__ m fuel text feats sids spembs lids s = (Done d, s') ->
  exists n c_list z_list a_prev prev_out s1 a s2,
    py_len text = Ok n /\
    decode_loop m fuel (length_bound n (maxlenratio (config m)))
                (length_bound n (minlenratio (config m))) 0
                c_list z_list a_prev prev_out [] [] [] s1
    = (Done a, s2) /\
    finish m a s2 = (Done d, s').
Proof.
  unfold __call__, bind. intros Hcall.
  destruct (lift (get_input_enc m text feats sids spembs lids) s)
    as [[input_enc | e |] t1]; try discriminate.
  destruct (run Encoder (encoder m) ["h"] input_enc t1)
    as [[hs | e |] t2]; try discriminate.
  destruct (lift (first_output hs) t2) as [[h | e |] t3]; try discriminate.
  destruct (py_len text) as [n | e]; cbn [lift ret raise] in Hcall;
    try discriminate.
  destruct (int_times n (maxlenratio (config m))) as [maxlen | e] eqn:Hmax;
    cbn [lift ret raise] in Hcall; try discriminate.
  destruct (int_times n (minlenratio (config m))) as [minlen | e] eqn:Hmin;
    cbn [lift ret raise] in Hcall; try discriminate.
  apply int_times_ok in Hmax, Hmin. subst maxlen minlen.
  destruct (init_state m h t3)
    as [[[[[c_list z_list] a_prev] prev_out] | e |] s1]; try discriminate.
  destruct (decode_loop m fuel _ _ 0 c_list z_list a_prev prev_out [] [] [] s1)
    as [[a | e |] s2] eqn:Hloop; try discriminate.
  exists n, c_list, z_list, a_prev, prev_out, s1, a, s2.
  split; [reflexivity |]. split; [exact Hloop | exact Hcall].
Qed.

(** Blocks of equal height and depth put side by side along the last of
    three axes. *)
Lemma np_concatenate_time (a b r : nat) (blocks : list ndarray) :
  (1 <= length blocks)%nat ->
  Forall (fun o => shape o = [a; b; r]) blocks ->
  exists buf, np_concatenate blocks 2 = Ok buf /\
              shape buf = [a; b; (length blocks * r)%nat].
Proof.
  intros Hne Hall. destruct blocks as [| x blocks]; [cbn in Hne; lia |].
  apply Forall_cons in Hall. destruct Hall as [Hx Hall].
  clear Hne. unfold np_concatenate. rewrite Hx. cbn [length Nat.ltb Nat.leb negb].
  assert (forallb (same_but_axis 2 x) blocks = true) as ->.
  { induction Hall as [| y blocks Hy _ IH]; [reflexivity |].
    cbn [forallb]. rewrite IH, andb_true_r.
    unfold same_but_axis. rewrite Hx, Hy. cbn [length Nat.eqb andb].
    apply bool_decide_eq_true. reflexivity. }
  cbn [negb]. eexists. split; [reflexivity |].
  cbn [shape replace_at firstn skipn app]. do 2 f_equal.
  assert (forall l, Forall (fun o => shape o = [a; b; r]) l ->
                    fold_right Nat.add 0%nat (map (axis_len 2) l)
                    = (length l * r)%nat) as Hsum.
  { intros l Hl. induction Hl as [| y l Hy _ IH]; [reflexivity |].
    cbn [map fold_right length]. rewrite IH. unfold axis_len. rewrite Hy.
    cbn [nth]. lia. }
  rewrite (Hsum (x :: blocks)) by (constructor; assumption).
  reflexivity.
Qed.

(** C6. A run of the loop that starts with empty accumulators and ends
    after [n] rounds, that is [n] decoder invocations, leaves [n] entries
    in the stop-probability and in the attention accumulator; and when each
    decoder invocation returns a block of [reduction_factor] frames, the
    concatenation of the frame accumulator along the time axis succeeds with
    time length [n * reduction_factor]. *)
Theorem accumulators_track_rounds m fuel maxlen minlen c_list z_list a_prev prev_out
    s outs probs att_ws s' :
  0 <= reduction_factor (config m) ->
  (forall names feed out rest,
     decoder m names feed = Ok (out :: rest) ->
     shape out = [1%nat; odim (config m); Z.to_nat (reduction_factor (config m))]) ->
  decode_loop m fuel maxlen minlen 0 c_list z_list a_prev prev_out [] [] [] s
  = (Done (outs, probs, att_ws), s') ->
  exists n : nat,
    calls s' = calls s ++ repeat Decoder n /\
    length probs = n /\
    length att_ws = n /\
    exists buf time_length,
      np_concatenate outs 2 = Ok buf /\
      shape buf = [1%nat; odim (config m); time_length] /\
      Z.of_nat time_length = Z.of_nat n * reduction_factor (config m).
Proof.
  intros Hrf Hframes Hrun.
  destruct (decode_loop_grows m _ Hframes _ _ _ _ _ _ _ _ _ _ _ _ _ _ Hrun)
    as (no & np & na & Ho & Hp & Ha & Hcalls & Hlp & Hla & Hpos & Hall).
  cbn [fst snd app] in *. subst outs probs att_ws.
  exists (length no). repeat split; try assumption.
  destruct (np_concatenate_time 1 (odim (config m))
              (Z.to_nat (reduction_factor (config m))) no Hpos Hall)
    as (buf & Hbuf & Hshape).
  exists buf, (length no * Z.to_nat (reduction_factor (config m)))%nat.
  split; [exact Hbuf |]. split; [exact Hshape | lia].
Qed.

(** In the concrete model the decoder signals the end in round 3; the run
    from the initial state takes three rounds and the frame buffer has time
    length 3. *)
Lemma accumulators_track_rounds_witness :
  let m := Demo.model 10 0 1 3 [] ["text"] in
  exists outs probs att_ws s',
    decode_loop m 5 100 0 0 [Demo.zeros11] [Demo.zeros11] Demo.att10 Demo.frame0
                [] [] [] Demo.ready
    = (Done (outs, probs, att_ws), s') /\
    exists n : nat,
      calls s' = calls Demo.ready ++ repeat Decoder n /\
      length probs = n /\
      length att_ws = n /\
      exists buf time_length,
        np_concatenate outs 2 = Ok buf /\
        shape buf = [1%nat; 2%nat; time_length] /\
        Z.of_nat time_length = Z.of_nat n * 1.
Proof.
  intros m. do 4 eexists. split.
  - vm_compute. reflexivity.
  - apply (accumulators_track_rounds m 5 100 0 [Demo.zeros11] [Demo.zeros11]
             Demo.att10 Demo.frame0 Demo.ready).
    + vm_compute. discriminate.
    + intros names feed out rest Hdec. cbn in Hdec. unfold Demo.dec in Hdec.
      destruct (feed !! "c_prev_0"), (feed !! "z_prev_0"), (feed !! "a_prev");
        try discriminate.
      injection Hdec as <- _. reflexivity.
    + reflexivity.
Defined.

(** ** The encoder's input mapping *)

Section InputEnc.

Variable m : Model.
Variable text : ndarray.
Variables feats sids spembs lids : option ndarray.

Lemma _set_input_dict_declared dic key value :
  key ∈ input_names m ->
  _set_input_dict m dic key value
  = match value with
    | None => Raise AssertionError
    | Some v => Ok (<[key := v]> dic)
    end.
Proof. intros Hin. unfold _set_input_dict. rewrite bool_decide_eq_true_2; done. Qed.

Lemma _set_input_dict_undeclared dic key value :
  key ∉ input_names m -> _set_input_dict m dic key value = Ok dic.
Proof. intros Hout. unfold _set_input_dict. rewrite bool_decide_eq_false_2; done. Qed.

(** Whatever [_set_input_dict] does, it raises nothing but the assertion. *)
Lemma _set_input_dict_raise dic key value e :
  _set_input_dict m dic key value = Raise e -> e = AssertionError.
Proof.
  unfold _set_input_dict. destruct (bool_decide _), value; congruence.
Qed.

Lemma optional_inputs_cases key value :
  (key, value) ∈ optional_inputs feats sids spembs lids ->
  (key = "feats" /\ value = feats) \/ (key = "sids" /\ value = sids) \/
  (key = "spembs" /\ value = spembs) \/ (key = "lids" /\ value = lids).
Proof.
  unfold optional_inputs. rewrite !elem_of_cons, elem_of_nil.
  intros [H | [H | [H | [H | []]]]]; injection H as -> ->; auto.
Qed.

Ltac step_input key :=
  let E := fresh "E" in
  destruct (_set_input_dict m _ key _) as [? | ?] eqn:E;
  [ cbn [rbind] | apply _set_input_dict_raise in E; subst; reflexivity ].

(** A declared input that is missing stops [get_input_enc]. *)
Lemma get_input_enc_missing key :
  (key, None) ∈ optional_inputs feats sids spembs lids ->
  key ∈ input_names m ->
  get_input_enc m text feats sids spembs lids = Raise AssertionError.
Proof.
  intros Hkey Hin. unfold get_input_enc.
  destruct (optional_inputs_cases _ _ Hkey) as [[-> <-] | [[-> <-] | [[-> <-] | [-> <-]]]].
  - rewrite _set_input_dict_declared by exact Hin. reflexivity.
  - step_input "feats".
    rewrite _set_input_dict_declared by exact Hin. reflexivity.
  - step_input "feats". step_input "sids".
    rewrite _set_input_dict_declared by exact Hin. reflexivity.
  - step_input "feats". step_input "sids". step_input "spembs".
    rewrite _set_input_dict_declared by exact Hin. reflexivity.
Qed.

(** What [get_input_enc] returns holds each optional input exactly when it
    is declared, and then with the value given. *)
Lemma get_input_enc_lookup d key value :
  get_input_enc m text feats sids spembs lids = Ok d ->
  (key, value) ∈ optional_inputs feats sids spembs lids ->
  d !! key = if bool_decide (key ∈ input_names m) then value else None.
Proof.
  intros Hd Hkey. unfold get_input_enc, _set_input_dict in Hd.
  destruct (optional_inputs_cases _ _ Hkey) as [[-> ->] | [[-> ->] | [[-> ->] | [-> ->]]]];
    destruct (bool_decide ("feats" ∈ input_names m)), feats;
    cbn [rbind] in Hd; try discriminate;
    destruct (bool_decide ("sids" ∈ input_names m)), sids;
    cbn [rbind] in Hd; try discriminate;
    destruct (bool_decide ("spembs" ∈ input_names m)), spembs;
    cbn [rbind] in Hd; try discriminate;
    destruct (bool_decide ("lids" ∈ input_names m)), lids;
    cbn [rbind] in Hd; try discriminate;
    injection Hd as <-; by simplify_map_eq.
Qed.

(** With every declared input supplied, [get_input_enc] returns. *)
Lemma get_input_enc_total :
  (forall key, (key, None) ∈ optional_inputs feats sids spembs lids ->
               key ∉ input_names m) ->
  exists d, get_input_enc m text feats sids spembs lids = Ok d.
Proof.
  intros Hall. unfold get_input_enc, _set_input_dict.
  assert (forall key value, (key, value) ∈ optional_inputs feats sids spembs lids ->
            forall dic : gmap string ndarray, exists dic',
              (if bool_decide (key ∈ input_names m)
               then match value with
                    | Some v => Ok (<[key := v]> dic)
                    | None => Raise AssertionError
                    end
               else Ok dic) = Ok dic') as Hstep.
  { intros key value Hkey dic. destruct value as [v |].
    - destruct (bool_decide _); eauto.
    - rewrite bool_decide_eq_false_2 by (apply Hall; exact Hkey). eauto. }
  destruct (Hstep "feats" feats ltac:(unfold optional_inputs; set_solver)
              ({[ "text" := text ]})) as [d1 ->]. cbn [rbind].
  destruct (Hstep "sids" sids ltac:(unfold optional_inputs; set_solver) d1)
    as [d2 ->]. cbn [rbind].
  destruct (Hstep "spembs" spembs ltac:(unfold optional_inputs; set_solver) d2)
    as [d3 ->]. cbn [rbind].
  destruct (Hstep "lids" lids ltac:(unfold optional_inputs; set_solver) d3)
    as [d4 ->]. cbn [rbind].
  eauto.
Qed.

End InputEnc.

(** C8. An optional input whose name the encoder declares is required: when
    it is not supplied, the call raises at the assertion and leaves the
    instance and the log as they were, so no session has been invoked; when
    it is supplied, the mapping built for the encoder holds it under that
    name, and with every declared input supplied the mapping is built. *)
Theorem declared_inputs_required m fuel text feats sids spembs lids s key value :
  (key, value) ∈ optional_inputs feats sids spembs lids ->
  key ∈ input_names m ->
  match value with
  | None =>
      __call__ m fuel text feats sids spembs lids s = (Raised AssertionError, s)
  | Some v =>
      (forall d, get_input_enc m text feats sids spembs lids = Ok d ->
                 d !! key = Some v) /\
      ((forall k, (k, None) ∈ optional_inputs feats sids spembs lids ->
                  k ∉ input_names m) ->
       exists d, get_input_enc m text feats sids spembs lids = Ok d)
  end.
Proof.
  intros Hkey Hin. destruct value as [v |].
  - split.
    + intros d Hd.
      rewrite (get_input_enc_lookup m text feats sids spembs lids d key (Some v) Hd Hkey).
      rewrite bool_decide_eq_true_2 by exact Hin. reflexivity.
    + apply get_input_enc_total.
  - unfold __call__, bind.
    rewrite (get_input_enc_missing m text feats sids spembs lids key Hkey Hin).
    reflexivity.
Qed.

(** The encoder of the concrete model declares [sids]: without a speaker id
    the call raises before any session runs; with one, the mapping holds
    it. *)
Lemma declared_inputs_required_witness :
  let m := Demo.model 10 0 1 3 [] ["text"; "sids"] in
  let spk := Demo.vec [7%Q] in
  __call__ m 5 Demo.text10 None None None None fresh = (Raised AssertionError, fresh) /\
  (forall d, get_input_enc m Demo.text10 None (Some spk) None None = Ok d ->
             d !! "sids" = Some spk).
Proof.
  intros m spk. split.
  - apply (declared_inputs_required m 5 Demo.text10 None None None None fresh
             "sids" None).
    + apply list_elem_of_further, list_elem_of_here.
    + apply (bool_decide_eq_true_1 _). reflexivity.
  - apply (declared_inputs_required m 5 Demo.text10 None (Some spk) None None fresh
             "sids" (Some spk)).
    + apply list_elem_of_further, list_elem_of_here.
    + apply (bool_decide_eq_true_1 _). reflexivity.
Defined.

(** [__call__] sees its optional arguments only through [get_input_enc]. *)
Lemma call_by_input_enc m fuel text feats sids spembs lids feats' sids' spembs' lids' :
  get_input_enc m text feats sids spembs lids
  = get_input_enc m text feats' sids' spembs' lids' ->
  __call__ m fuel text feats sids spembs lids = __call__ m fuel text feats' sids' spembs' lids'.
Proof. intros Heq. unfold __call__. rewrite Heq. reflexivity. Qed.

(** C10. An optional input whose name the encoder does not declare is
    passed over: [_set_input_dict] returns the mapping as it was, the
    mapping built for the encoder has no entry under that name, and the call
    is the call in which that input is not given. *)
Theorem undeclared_inputs_ignored m fuel text feats sids spembs lids key value :
  (key, value) ∈ optional_inputs feats sids spembs lids ->
  key ∉ input_names m ->
  (forall dic, _set_input_dict m dic key value = Ok dic) /\
  (forall d, get_input_enc m text feats sids spembs lids = Ok d -> d !! key = None) /\
  __call__ m fuel text feats sids spembs lids
  = __call__ m fuel text (unless_named key "feats" feats) (unless_named key "sids" sids)
         (unless_named key "spembs" spembs) (unless_named key "lids" lids).
Proof.
  intros Hkey Hout. split; [| split].
  - intros dic. apply _set_input_dict_undeclared. exact Hout.
  - intros d Hd.
    rewrite (get_input_enc_lookup m text feats sids spembs lids d key value Hd Hkey).
    rewrite bool_decide_eq_false_2 by exact Hout. reflexivity.
  - apply call_by_input_enc. unfold get_input_enc, _set_input_dict.
    apply (bool_decide_eq_false_2 (key ∈ input_names m)) in Hout.
    destruct (optional_inputs_cases _ _ _ _ _ _ Hkey)
      as [[-> _] | [[-> _] | [[-> _] | [-> _]]]];
      destruct (bool_decide (_ ∈ input_names m)) in Hout |- *;
      first [discriminate Hout | reflexivity].
Qed.

(** The encoder of the concrete model declares only [text]: a speaker id
    given all the same is left out and changes nothing. *)
Lemma undeclared_inputs_ignored_witness :
  let m := Demo.model 10 0 1 3 [] ["text"] in
  let spk := Demo.vec [7%Q] in
  (forall dic, _set_input_dict m dic "sids" (Some spk) = Ok dic) /\
  (forall d, get_input_enc m Demo.text10 None (Some spk) None None = Ok d ->
             d !! "sids" = None) /\
  __call__ m 5 Demo.text10 None (Some spk) None None
  = __call__ m 5 Demo.text10 None None None None.
Proof.
  intros m spk.
  apply (undeclared_inputs_ignored m 5 Demo.text10 None (Some spk) None None
           "sids" (Some spk)).
  - apply list_elem_of_further, list_elem_of_here.
  - apply (bool_decide_eq_true_1 _). reflexivity.
Defined.

(** ** Repeated calls *)

Lemma log_stable_same : log_stable same_cache.
Proof. intros id s s' H. exact H. Qed.

Lemma log_stable_any : log_stable any_cache.
Proof. intros id s s' H. exact I. Qed.

Lemma respects_ret {A} R (a : A) : respects R R (ret a).
Proof. intros s s' H. split; [reflexivity | intros _ _; exact H]. Qed.

Lemma respects_raise {A} R R' (e : exn) : respects R R' (@raise A e).
Proof. intros s s' H. split; [reflexivity | discriminate]. Qed.

Lemma respects_lift {A} R (r : result A) : respects R R (lift r).
Proof. destruct r; [apply respects_ret | apply respects_raise]. Qed.

Lemma respects_out_of_fuel {A} R R' :
  respects R R' (fun s => (@OutOfFuel A, s)).
Proof. intros s s' H. split; [reflexivity | discriminate]. Qed.

Lemma respects_bind {A B} R R' R'' (c : M A) (k : A -> M B) :
  respects R R' c -> (forall a, respects R' R'' (k a)) ->
  respects R R'' (bind c k).
Proof.
  intros Hc Hk s s' H. unfold bind. destruct (Hc s s' H) as [Hout Hrel].
  destruct (c s) as [[a | e |] s1]; destruct (c s') as [[a' | e' |] s1'];
    cbn in Hout; try discriminate; cbn [fst snd].
  - injection Hout as <-. apply Hk. apply (Hrel a). reflexivity.
  - injection Hout as <-. split; [reflexivity | discriminate].
  - split; [reflexivity | discriminate].
Qed.

Lemma respects_run R id f names feed :
  log_stable R -> respects R R (run id f names feed).
Proof.
  intros Hlog s s' H. unfold run.
  apply (respects_lift R (f names feed)). apply Hlog. exact H.
Qed.

Lemma respects_getattr_pceh :
  respects same_cache same_cache (getattr pre_compute_enc_h).
Proof.
  intros s s' H. unfold getattr. destruct H as (Hp & He & Hm). rewrite <- Hp.
  destruct (pre_compute_enc_h s) eqn:E; cbn [fst snd];
    (split; [reflexivity | intros _ _; repeat split; congruence]).
Qed.

Lemma respects_getattr_enc_h : respects same_cache same_cache (getattr enc_h).
Proof.
  intros s s' H. unfold getattr. destruct H as (Hp & He & Hm). rewrite <- He.
  destruct (enc_h s) eqn:E; cbn [fst snd];
    (split; [reflexivity | intros _ _; repeat split; congruence]).
Qed.

Lemma respects_getattr_mask : respects same_cache same_cache (getattr mask).
Proof.
  intros s s' H. unfold getattr. destruct H as (Hp & He & Hm). rewrite <- Hm.
  destruct (mask s) eqn:E; cbn [fst snd];
    (split; [reflexivity | intros _ _; repeat split; congruence]).
Qed.

Lemma respects_get_input_dec c_list z_list a_prev prev_in :
  respects same_cache same_cache (get_input_dec c_list z_list a_prev prev_in).
Proof.
  unfold get_input_dec.
  eapply respects_bind; [apply respects_getattr_pceh | intros pceh].
  eapply respects_bind; [apply respects_getattr_enc_h | intros eh].
  eapply respects_bind; [apply respects_getattr_mask | intros mk].
  apply respects_ret.
Qed.

Lemma respects_decode_loop m :
  forall fuel maxlen minlen idx c_list z_list a_prev prev_out outs probs att_ws,
    respects same_cache same_cache
      (decode_loop m fuel maxlen minlen idx c_list z_list a_prev prev_out
                   outs probs att_ws).
Proof.
  intros fuel. induction fuel as [| fuel IH]; intros *.
  - apply respects_out_of_fuel.
  - cbn [decode_loop].
    eapply respects_bind; [apply respects_get_input_dec | intros feed].
    eapply respects_bind;
      [apply respects_run, log_stable_same | intros res].
    destruct res as [| out [| prob [| a_next [| out_next cz_states]]]];
      try apply respects_raise.
    eapply respects_bind; [apply respects_lift | intros cnt].
    destruct ((0 <? cnt) || (maxlen <=? idx + reduction_factor (config m)));
      [destruct (idx + reduction_factor (config m) <? minlen) |];
      first [apply IH | apply respects_ret].
Qed.

Lemma respects_finish m a : respects same_cache same_cache (finish m a).
Proof.
  destruct a as [[outs probs] att_ws]. unfold finish.
  eapply respects_bind; [apply respects_lift | intros o].
  eapply respects_bind.
  - destruct (postdecoder m) as [post |]; [| apply respects_ret].
    eapply respects_bind;
      [apply respects_run, log_stable_same | intros r; apply respects_lift].
  - intros o'.
    eapply respects_bind; [apply respects_lift | intros p].
    eapply respects_bind; [apply respects_lift | intros w].
    apply respects_ret.
Qed.

(** [init_state] overwrites the three cached attributes before anything
    reads them, so what it leaves does not depend on what it found. *)
Lemma respects_init_state m x : respects any_cache same_cache (init_state m x).
Proof.
  intros s s' _. unfold init_state, bind.
  destruct (zero_of m x) as [c0 | e]; cbn [lift ret raise];
    [| split; [reflexivity | discriminate]].
  destruct (append_layers m (dlayers m - 1) x [c0] [c0]) as [cz | e];
    cbn [lift ret raise]; [| split; [reflexivity | discriminate]].
  destruct (get_att_prev x) as [a | e]; cbn [lift ret raise];
    [| split; [reflexivity | discriminate]].
  destruct (expand_front x) as [feed | e]; cbn [lift ret raise];
    [| split; [reflexivity | discriminate]].
  unfold run.
  destruct (predecoder m ["pre_compute_enc_h"] {[ "enc_h" := feed ]})
    as [[| p ps] | e]; cbn [lift ret raise first_output];
    try (split; [reflexivity | discriminate]).
  cbn [set_pre_compute_enc_h set_enc_h].
  destruct (shape0 x) as [l | e]; cbn [lift ret raise set_mask];
    [| split; [reflexivity | discriminate]].
  split; [reflexivity |]. intros _ _. repeat split.
Qed.

Lemma respects_call m fuel text feats sids spembs lids :
  respects any_cache same_cache (__call__ m fuel text feats sids spembs lids).
Proof.
  unfold __call__.
  eapply respects_bind; [apply respects_lift | intros input_enc].
  eapply respects_bind; [apply respects_run, log_stable_any | intros hs].
  eapply respects_bind; [apply respects_lift | intros h].
  eapply respects_bind; [apply respects_lift | intros n].
  eapply respects_bind; [apply respects_lift | intros maxlen].
  eapply respects_bind; [apply respects_lift | intros minlen].
  eapply respects_bind; [apply respects_init_state |].
  intros [[[c_list z_list] a_prev] prev_out].
  eapply respects_bind; [apply respects_decode_loop | intros a].
  apply respects_finish.
Qed.

(** C9. The sessions being functions, a second call with the same
    arguments returns what the first returned, although it starts from the
    attributes and the log the first one left; more generally the outcome
    of a call is the same from any two instances of the model. *)
Theorem repeated_calls_agree m fuel text feats sids spembs lids :
  (forall s,
     let first := __call__ m fuel text feats sids spembs lids s in
     (__call__ m fuel text feats sids spembs lids first.2).1 = first.1) /\
  (forall s s',
     (__call__ m fuel text feats sids spembs lids s).1
     = (__call__ m fuel text feats sids spembs lids s').1).
Proof.
  assert (forall s s',
            (__call__ m fuel text feats sids spembs lids s).1
            = (__call__ m fuel text feats sids spembs lids s').1) as Hany.
  { intros s s'.
    apply (respects_call m fuel text feats sids spembs lids s s'). exact I. }
  split; [| exact Hany].
  intros s first. apply Hany.
Qed.

(** ** Runs of the concrete model *)

(** Ten tokens, [minlen = 0], [maxlen = 100], reduction factor 1, threshold
    1/2, stop probability 9/10 in round 3: three rounds, three frames. *)
Example stop_in_round_three :
  let r := __call__ (Demo.model 10 0 1 3 [] ["text"]) 5 Demo.text10
                None None None None fresh in
  result_shapes r.1
  = Some ([1%nat; 2%nat; 3%nat], [3%nat], [3%nat; 10%nat]) /\
  calls r.2 = [Encoder; Predecoder; Decoder; Decoder; Decoder].
Proof. split; vm_compute; reflexivity. Qed.

(** The stop probability never reaches the threshold and [maxlen = 20]:
    twenty rounds. *)
Example stop_at_maxlen :
  let r := __call__ (Demo.model 2 0 1 100 [] ["text"]) 20 Demo.text10
                None None None None fresh in
  result_shapes r.1
  = Some ([1%nat; 2%nat; 20%nat], [20%nat], [20%nat; 10%nat]) /\
  calls r.2 = [Encoder; Predecoder] ++ repeat Decoder 20.
Proof. split; vm_compute; reflexivity. Qed.

(** A second call on the instance the first one left returns the same
    dictionary. *)
Example second_call_same_result :
  let m := Demo.model 10 0 1 3 [] ["text"] in
  let first := __call__ m 5 Demo.text10 None None None None fresh in
  let second := __call__ m 5 Demo.text10 None None None None first.2 in
  second.1 = first.1 /\
  result_shapes second.1
  = Some ([1%nat; 2%nat; 3%nat], [3%nat], [3%nat; 10%nat]) /\
  calls second.2
  = [Encoder; Predecoder; Decoder; Decoder; Decoder;
     Encoder; Predecoder; Decoder; Decoder; Decoder].
Proof. split; [reflexivity | split; vm_compute; reflexivity]. Qed.

(** * Further properties *)

Lemma fuel_free_get_input_dec_eq c z a p s s' :
  get_input_dec c z a p s = (OutOfFuel, s') -> False.
Proof.
  intros H. apply (fuel_free_get_input_dec c z a p s). rewrite H. reflexivity.
Qed.

(** ** A rule for the loop

    [Inv] is what holds whenever a round starts, [Post] what holds of the
    outcome and of the instance the loop leaves.  The premises follow the
    ways through the body of the loop: the feed cannot be built, the
    decoder fails, fewer than four arrays come back, the count fails, the
    round is the last, the round is followed by another. *)

Section LoopRule.

Variable m : Model.
Variables maxlen minlen : Z.
Variable Inv : Z -> list ndarray -> list ndarray -> ndarray -> ndarray ->
               accs -> Self -> Prop.
Variable Post : outcome accs -> Self -> Prop.

Let rf := reduction_factor (config m).

Hypothesis Hfuel :
  forall idx c z a p acc s, Inv idx c z a p acc s -> Post OutOfFuel s.
Hypothesis Hfeed :
  forall idx c z a p acc s e,
    Inv idx c z a p acc s ->
    get_input_dec c z a p s = (Raised e, s) ->
    Post (Raised e) s.
Hypothesis Hsession :
  forall idx c z a p acc s feed e,
    Inv idx c z a p acc s ->
    get_input_dec c z a p s = (Done feed, s) ->
    decoder m (decoder_output_names m) feed = Raise e ->
    Post (Raised e) (log Decoder s).
Hypothesis Harity :
  forall idx c z a p acc s feed res,
    Inv idx c z a p acc s ->
    get_input_dec c z a p s = (Done feed, s) ->
    decoder m (decoder_output_names m) feed = Ok res ->
    (length res < 4)%nat ->
    Post (Raised ValueError) (log Decoder s).
Hypothesis Hcount :
  forall idx c z a p acc s feed out prob a' p' cz e,
    Inv idx c z a p acc s ->
    get_input_dec c z a p s = (Done feed, s) ->
    decoder m (decoder_output_names m) feed = Ok (out :: prob :: a' :: p' :: cz) ->
    stop_count (threshold (config m)) prob = Raise e ->
    Post (Raised e) (log Decoder s).
Hypothesis Hlast :
  forall idx c z a p outs probs att_ws s feed out prob a' p' cz cnt,
    Inv idx c z a p (outs, probs, att_ws) s ->
    get_input_dec c z a p s = (Done feed, s) ->
    decoder m (decoder_output_names m) feed = Ok (out :: prob :: a' :: p' :: cz) ->
    stop_count (threshold (config m)) prob = Ok cnt ->
    0 < cnt \/ maxlen <= idx + rf ->
    minlen <= idx + rf ->
    Post (Done (outs ++ [out], probs ++ [prob], att_ws ++ [a'])) (log Decoder s).
Hypothesis Hnext :
  forall idx c z a p outs probs att_ws s feed out prob a' p' cz cnt,
    Inv idx c z a p (outs, probs, att_ws) s ->
    get_input_dec c z a p s = (Done feed, s) ->
    decoder m (decoder_output_names m) feed = Ok (out :: prob :: a' :: p' :: cz) ->
    stop_count (threshold (config m)) prob = Ok cnt ->
    (cnt <= 0 /\ idx + rf < maxlen) \/ idx + rf < minlen ->
    Inv (idx + rf) (_split cz).1 (_split cz).2 a' p'
        (outs ++ [out], probs ++ [prob], att_ws ++ [a']) (log Decoder s).

Lemma decode_loop_rule :
  forall fuel idx c z a p outs probs att_ws s,
    Inv idx c z a p (outs, probs, att_ws) s ->
    Post (decode_loop m fuel maxlen minlen idx c z a p outs probs att_ws s).1
         (decode_loop m fuel maxlen minlen idx c z a p outs probs att_ws s).2.
Proof.
  intros fuel. induction fuel as [| fuel IH]; intros * HI.
  - cbn. eapply Hfuel. exact HI.
  - destruct (decode_loop m (S fuel) maxlen minlen idx c z a p outs probs att_ws s)
      as [o s'] eqn:E.
    cbn [fst snd]. cbn [decode_loop] in E. unfold bind at 1 in E.
    pose proof (get_input_dec_state c z a p s) as Hst.
    destruct (get_input_dec c z a p s) as [[feed | e |] s1] eqn:Hf;
      cbn in Hst; subst s1.
    + unfold bind at 1, run in E.
      destruct (decoder m (decoder_output_names m) feed) as [res | e] eqn:Hd;
        cbn [lift ret raise] in E.
      * destruct res as [| out [| prob [| a' [| p' cz]]]];
          try (injection E as <- <-; eapply Harity;
               [exact HI | exact Hf | exact Hd | cbn [length]; lia]).
        unfold bind at 1 in E.
        destruct (stop_count (threshold (config m)) prob) as [cnt | e] eqn:Hc;
          cbn [lift ret raise] in E.
        -- fold rf in E.
           destruct (0 <? cnt) eqn:Ecnt; destruct (maxlen <=? idx + rf) eqn:Emax;
             cbn [orb] in E; try destruct (idx + rf <? minlen) eqn:Emin;
             try apply Z.ltb_lt in Ecnt; try apply Z.ltb_ge in Ecnt;
             try apply Z.leb_le in Emax; try apply Z.leb_gt in Emax;
             try apply Z.ltb_lt in Emin; try apply Z.ltb_ge in Emin;
             first
               [ injection E as <- <-; eapply Hlast; eauto; lia
               | match type of E with
                 | ?run = _ =>
                     change o with (o, s').1; change s' with (o, s').2 at 2;
                     rewrite <- E; apply IH; eapply Hnext; eauto; lia
                 end ].
        -- injection E as <- <-. eapply Hcount; eauto.
      * injection E as <- <-. eapply Hsession; eauto.
    + injection E as <- <-. eapply Hfeed; eauto.
    + exfalso. revert Hf. apply fuel_free_get_input_dec_eq.
Qed.

End LoopRule.

(** ** The decoder's input mapping *)

Lemma dict_update_lookup_other (d : gmap string ndarray) kvs k :
  k ∉ kvs.*1 -> dict_update d kvs !! k = d !! k.
Proof.
  revert d. induction kvs as [| [k' v'] kvs IH]; intros d Hk; [reflexivity |].
  cbn [dict_update foldl] in *. fold (dict_update (<[k' := v']> d) kvs).
  rewrite fmap_cons in Hk. apply not_elem_of_cons in Hk as [Hne Hk].
  rewrite IH by exact Hk. cbn [fst snd] in *.
  apply lookup_insert_ne. intros Heq. apply Hne. symmetry. exact Heq.
Qed.

Lemma dict_update_lookup_here (d : gmap string ndarray) kvs k v :
  NoDup kvs.*1 -> (k, v) ∈ kvs -> dict_update d kvs !! k = Some v.
Proof.
  revert d. induction kvs as [| [k' v'] kvs IH]; intros d Hnd Hin.
  - apply elem_of_nil in Hin as [].
  - cbn [dict_update foldl]. fold (dict_update (<[k' := v']> d) kvs).
    rewrite fmap_cons in Hnd. apply NoDup_cons in Hnd as [Hfresh Hnd].
    apply elem_of_cons in Hin as [Heq | Hin].
    + injection Heq as -> ->.
      rewrite dict_update_lookup_other by exact Hfresh.
      apply lookup_insert_eq.
    + apply IH; assumption.
Qed.

(** The keys [f'{prefix}{i}'] of one of the two comprehensions. *)
Lemma imap_keys (prefix : string) (l : list ndarray) :
  (imap (fun i v => (prefix +:+ pretty i, v)) l).*1
  = (fun i => prefix +:+ pretty i) <$> seq 0 (length l).
Proof.
  rewrite fmap_imap. unfold compose. cbn [fst].
  apply (imap_seq_0 l (fun i => prefix +:+ pretty i)).
Qed.

Lemma indexed_key_inj (prefix : string) (i j : nat) :
  prefix +:+ pretty i = prefix +:+ pretty j -> i = j.
Proof.
  intros H. apply (inj (pretty (A := nat))).
  induction prefix as [| ch prefix IH]; cbn in H; [exact H |].
  injection H as H. apply IH. exact H.
Qed.

Lemma indexed_keys_NoDup (prefix : string) n :
  NoDup ((fun i : nat => prefix +:+ pretty i) <$> seq 0 n).
Proof.
  apply NoDup_fmap_2_strong; [| apply NoDup_seq].
  intros i j _ _ H. apply (indexed_key_inj prefix). exact H.
Qed.

(** A dictionary updated with an indexed comprehension holds, under the key
    of index [i], the [i]-th element of the list, provided no key of that
    form was in it before. *)
Lemma dict_update_indexed (d : gmap string ndarray) (prefix : string)
    (l : list ndarray) i :
  (forall j : nat, d !! (prefix +:+ pretty j) = None) ->
  dict_update d (imap (fun j v => (prefix +:+ pretty j, v)) l)
    !! (prefix +:+ pretty i)
  = l !! i.
Proof.
  intros Hd. destruct (l !! i) as [v |] eqn:Hi.
  - apply dict_update_lookup_here.
    + rewrite imap_keys. apply indexed_keys_NoDup.
    + apply (elem_of_lookup_imap_2 (fun j v => (prefix +:+ pretty j, v))).
      exact Hi.
  - rewrite dict_update_lookup_other; [apply Hd |].
    rewrite imap_keys. intros Hin. apply list_elem_of_fmap in Hin as (j & Hj & Hin).
    apply indexed_key_inj in Hj. subst j.
    apply elem_of_seq in Hin. apply lookup_ge_None in Hi. lia.
Qed.

Ltac first_char_differs :=
  let H := fresh in intros H; cbn in H; discriminate H.

Lemma dict_update_indexed_other (d : gmap string ndarray) (prefix : string)
    (l : list ndarray) k :
  (forall j : nat, prefix +:+ pretty j <> k) ->
  dict_update d (imap (fun j v => (prefix +:+ pretty j, v)) l) !! k = d !! k.
Proof.
  intros Hk. apply dict_update_lookup_other. rewrite imap_keys.
  intros Hin. apply list_elem_of_fmap in Hin as (j & Hj & _).
  apply (Hk j). symmetry. exact Hj.
Qed.

Section Feed.

Variables (c_list z_list : list ndarray) (a_prev prev_in : ndarray).
Variables (s s' : Self) (feed : gmap string ndarray).
Hypothesis Hfeed : get_input_dec c_list z_list a_prev prev_in s = (Done feed, s').

Lemma get_input_dec_done :
  exists pceh eh mk,
    pre_compute_enc_h s = Some pceh /\ enc_h s = Some eh /\ mask s = Some mk /\
    s' = s /\
    feed = dict_update
             (dict_update
                (dict_update ∅ (imap (fun i cl => ("c_prev_" +:+ pretty i, cl)) c_list))
                (imap (fun i zl => ("z_prev_" +:+ pretty i, zl)) z_list))
             [("a_prev", a_prev); ("pceh", pceh); ("enc_h", eh); ("mask", mk);
              ("prev_in", prev_in)].
Proof.
  unfold get_input_dec, bind, getattr, ret in Hfeed.
  destruct (pre_compute_enc_h s) as [pceh |]; [| discriminate].
  destruct (enc_h s) as [eh |]; [| discriminate].
  destruct (mask s) as [mk |]; [| discriminate].
  injection Hfeed as <- <-. exists pceh, eh, mk. repeat split; reflexivity.
Qed.

Lemma get_input_dec_lookups :
  (forall i : nat, feed !! ("c_prev_" +:+ pretty i) = c_list !! i) /\
  (forall i : nat, feed !! ("z_prev_" +:+ pretty i) = z_list !! i) /\
  feed !! "a_prev" = Some a_prev /\
  feed !! "prev_in" = Some prev_in /\
  feed !! "pceh" = pre_compute_enc_h s /\
  feed !! "enc_h" = enc_h s /\
  feed !! "mask" = mask s.
Proof.
  destruct get_input_dec_done as (pceh & eh & mk & -> & -> & -> & _ & ->).
  split; [| split].
  - intros i.
    rewrite dict_update_lookup_other.
    2:{ cbn. rewrite !not_elem_of_cons. repeat split;
          first [first_char_differs | apply not_elem_of_nil]. }
    rewrite dict_update_indexed_other by (intros j; first_char_differs).
    apply dict_update_indexed. intros j. apply lookup_empty.
  - intros i.
    rewrite dict_update_lookup_other.
    2:{ cbn. rewrite !not_elem_of_cons. repeat split;
          first [first_char_differs | apply not_elem_of_nil]. }
    apply dict_update_indexed. intros j.
    rewrite dict_update_indexed_other by (intros k; first_char_differs).
    apply lookup_empty.
  - assert (NoDup [("a_prev", a_prev); ("pceh", pceh); ("enc_h", eh);
                    ("mask", mk); ("prev_in", prev_in)].*1) as Hnd.
    { cbn. apply (bool_decide_eq_true_1 _). reflexivity. }
    repeat split; (apply dict_update_lookup_here; [exact Hnd |]);
      repeat first [apply list_elem_of_here | apply list_elem_of_further].
Qed.

End Feed.

(** X1. The mapping built for the decoder holds the [i]-th cell state under
    [c_prev_i] and the [i]-th hidden state under [z_prev_i], for every
    index, and nothing under these keys beyond the ends of the lists; the
    five fixed keys hold the previous attention, the previous frame and the
    three cached attributes.  No entry overwrites another. *)
Theorem get_input_dec_entries
    (c_list z_list : list ndarray) (a_prev prev_in : ndarray)
    (s s' : Self) (feed : gmap string ndarray) :
  get_input_dec c_list z_list a_prev prev_in s = (Done feed, s') ->
  (forall i : nat, feed !! ("c_prev_" +:+ pretty i) = c_list !! i) /\
  (forall i : nat, feed !! ("z_prev_" +:+ pretty i) = z_list !! i) /\
  feed !! "a_prev" = Some a_prev /\
  feed !! "prev_in" = Some prev_in /\
  feed !! "pceh" = pre_compute_enc_h s /\
  feed !! "enc_h" = enc_h s /\
  feed !! "mask" = mask s.
Proof.
  intros Hfeed.
  exact (get_input_dec_lookups c_list z_list a_prev prev_in s s' feed Hfeed).
Qed.

(** With two layers: the cell states [7] and [8] sit under [c_prev_0] and
    [c_prev_1], the hidden states [5] and [6] under [z_prev_0] and
    [z_prev_1]. *)
Lemma get_input_dec_entries_witness :
  let feed := Probe.feed2 in
  (forall i : nat, feed !! ("c_prev_" +:+ pretty i)
                   = [Demo.vec [7%Q]; Demo.vec [8%Q]] !! i) /\
  (forall i : nat, feed !! ("z_prev_" +:+ pretty i)
                   = [Demo.vec [5%Q]; Demo.vec [6%Q]] !! i) /\
  feed !! "a_prev" = Some Demo.att10 /\
  feed !! "prev_in" = Some Demo.frame0 /\
  feed !! "pceh" = pre_compute_enc_h Demo.ready /\
  feed !! "enc_h" = enc_h Demo.ready /\
  feed !! "mask" = mask Demo.ready.
Proof.
  intros feed.
  apply (get_input_dec_entries [Demo.vec [7%Q]; Demo.vec [8%Q]]
           [Demo.vec [5%Q]; Demo.vec [6%Q]] Demo.att10 Demo.frame0
           Demo.ready Demo.ready feed).
  reflexivity.
Defined.




(** ** More on state initialisation *)

Lemma init_state_no_axis m x s :
  shape x = [] -> init_state m x s = (Raised IndexError, s).
Proof.
  intros Hshape. unfold init_state, bind, zero_of, expand_front.
  rewrite Hshape. reflexivity.
Qed.

(** X3. The lists of [init_state] never are empty: they have [dlayers]
    entries, and one entry when [dlayers] is 0, because the first state is
    created before the loop over the remaining layers. *)
Theorem init_state_layer_count m x l rest s p ps :
  shape x = l :: rest ->
  predecoder m ["pre_compute_enc_h"]
    {[ "enc_h" := mk_ndarray (1%nat :: shape x) (data x) ]} = Ok (p :: ps) ->
  exists c_list z_list a prev_out cache,
    init_state m x s = (Done (c_list, z_list, a, prev_out), cache) /\
    length c_list = Nat.max 1 (dlayers m) /\
    length z_list = Nat.max 1 (dlayers m) /\
    shape prev_out = [1%nat; odim (config m)].
Proof.
  intros Hshape Hpre.
  rewrite (init_state_done m x l rest Hshape s p ps Hpre).
  do 5 eexists. split; [reflexivity |].
  rewrite !repeat_length. repeat split; lia.
Qed.

(** A model configured with no decoder layer still starts from one cell
    and one hidden state. *)
Lemma init_state_layer_count_witness :
  let m := Probe.model 10 0 1 (Probe.steady 1) 0 None in
  dlayers m = 0%nat /\
  exists c_list z_list a prev_out cache,
    init_state m Demo.h10 fresh = (Done (c_list, z_list, a, prev_out), cache) /\
    length c_list = 1%nat /\
    length z_list = 1%nat /\
    shape prev_out = [1%nat; 2%nat].
Proof.
  intros m. split; [reflexivity |].
  apply (init_state_layer_count m Demo.h10 10%nat [2%nat] fresh
           (mk_ndarray [1%nat; 10%nat; 2%nat] (repeat 0%Q 20)) []).
  - reflexivity.
  - reflexivity.
Defined.

Lemma init_state_all_or_nothing_aux m x s :
  match init_state m x s with
  | (Done _, cache) =>
      exists l rest p ps,
        shape x = l :: rest /\
        predecoder m ["pre_compute_enc_h"]
          {[ "enc_h" := mk_ndarray (1%nat :: shape x) (data x) ]} = Ok (p :: ps) /\
        pre_compute_enc_h cache = Some p /\
        enc_h cache = Some (mk_ndarray (1%nat :: shape x) (data x)) /\
        mask cache = Some (mk_ndarray [1%nat; l] (repeat 0%Q l)) /\
        calls cache = calls s ++ [Predecoder]
  | (Raised _, cache) => same_cache s cache
  | (OutOfFuel, _) => False
  end.
Proof.
  destruct (shape x) as [| l rest] eqn:Hshape.
  - rewrite init_state_no_axis by exact Hshape. repeat split.
  - destruct (predecoder m ["pre_compute_enc_h"]
                {[ "enc_h" := mk_ndarray (1%nat :: l :: rest) (data x) ]})
      as [[| p ps] | e] eqn:Hpre; rewrite <- Hshape in Hpre.
    + rewrite (init_state_no_output m x l rest Hshape s Hpre). repeat split.
    + rewrite (init_state_done m x l rest Hshape s p ps Hpre).
      exists l, rest, p, ps. rewrite Hshape in *. repeat split; assumption.
    + rewrite (init_state_raised m x l rest Hshape s e Hpre). repeat split.
Qed.

(** X4. [init_state] writes the three cached attributes together or not at
    all.  When it returns, they hold the predecoder's first output, the
    encoder output under a new leading axis, and a mask bias that is zero at
    every position; when it raises, whatever the reason, the attributes
    are the ones found, stale or absent. *)
Theorem init_state_all_or_nothing m x s :
  match init_state m x s with
  | (Done _, cache) =>
      exists l rest p ps,
        shape x = l :: rest /\
        predecoder m ["pre_compute_enc_h"]
          {[ "enc_h" := mk_ndarray (1%nat :: shape x) (data x) ]} = Ok (p :: ps) /\
        pre_compute_enc_h cache = Some p /\
        enc_h cache = Some (mk_ndarray (1%nat :: shape x) (data x)) /\
        mask cache = Some (mk_ndarray [1%nat; l] (repeat 0%Q l)) /\
        calls cache = calls s ++ [Predecoder]
  | (Raised _, cache) => same_cache s cache
  | (OutOfFuel, _) => False
  end.
Proof. apply init_state_all_or_nothing_aux. Qed.

Lemma cached_get_input_dec c_list z_list a_prev prev_in s :
  cached s ->
  exists feed, get_input_dec c_list z_list a_prev prev_in s = (Done feed, s).
Proof.
  intros ([pceh Hp] & [eh He] & [mk Hm]).
  unfold get_input_dec, bind, getattr. rewrite Hp, He, Hm.
  eexists. reflexivity.
Qed.

Lemma uncached_get_input_dec c_list z_list a_prev prev_in s :
  ~ cached s ->
  get_input_dec c_list z_list a_prev prev_in s = (Raised AttributeError, s).
Proof.
  intros Hnot. unfold get_input_dec, bind, getattr.
  destruct (pre_compute_enc_h s) as [pceh |] eqn:Hp; [| reflexivity].
  destruct (enc_h s) as [eh |] eqn:He; [| reflexivity].
  destruct (mask s) as [mk |] eqn:Hm; [| reflexivity].
  exfalso. apply Hnot. unfold cached. rewrite Hp, He, Hm. eauto.
Qed.

Lemma init_state_cached m x s st cache :
  init_state m x s = (Done st, cache) -> cached cache.
Proof.
  intros Hinit. pose proof (init_state_all_or_nothing_aux m x s) as Hall.
  rewrite Hinit in Hall.
  destruct Hall as (l & rest & p & ps & _ & _ & Hp & He & Hm & _).
  unfold cached. rewrite Hp, He, Hm. eauto.
Qed.

(** X5. The decoder's input mapping can be built exactly on an instance on
    which [init_state] has returned once: with an attribute missing,
    [get_input_dec] raises [AttributeError] and touches nothing; after a
    successful [init_state] it returns, whatever the lists it is given, also
    after later decoder invocations. *)
Theorem get_input_dec_needs_init_state m c_list z_list a_prev prev_in :
  (forall s, ~ cached s ->
     get_input_dec c_list z_list a_prev prev_in s = (Raised AttributeError, s)) /\
  (forall x s st cache n,
     init_state m x s = (Done st, cache) ->
     let later := Nat.iter n (log Decoder) cache in
     exists feed,
       get_input_dec c_list z_list a_prev prev_in later = (Done feed, later)).
Proof.
  split.
  - intros s. apply uncached_get_input_dec.
  - intros x s st cache n Hinit later. apply cached_get_input_dec.
    apply init_state_cached in Hinit. subst later.
    induction n as [| n IH]; [exact Hinit | exact IH].
Qed.

(** On a fresh instance the mapping cannot be built; on the instance left
    by [init_state], and after three decoder rounds, it can. *)
Lemma get_input_dec_needs_init_state_witness :
  let m := Demo.model 10 0 1 3 [] ["text"] in
  get_input_dec [Demo.zeros11] [Demo.zeros11] Demo.att10 Demo.frame0 fresh
  = (Raised AttributeError, fresh) /\
  let later := Nat.iter 3 (log Decoder) (init_state m Demo.h10 fresh).2 in
  exists feed,
    get_input_dec [Demo.zeros11] [Demo.zeros11] Demo.att10 Demo.frame0 later
    = (Done feed, later).
Proof.
  intros m.
  destruct (get_input_dec_needs_init_state m [Demo.zeros11] [Demo.zeros11]
              Demo.att10 Demo.frame0) as [Hfresh Hlater].
  split.
  - apply Hfresh. intros (Hp & _). destruct Hp as [v Hv]. discriminate Hv.
  - apply (Hlater Demo.h10 fresh
             ([Demo.zeros11], [Demo.zeros11], Demo.att10, Demo.frame0)
             (init_state m Demo.h10 fresh).2 3%nat).
    reflexivity.
Defined.

(** ** The order of the session invocations *)

Lemma repeat_snoc {A} (a : A) (n : nat) : repeat a n ++ [a] = repeat a (S n).
Proof. induction n as [| n IH]; [reflexivity |]. cbn. rewrite IH. reflexivity. Qed.

(** Whatever way the loop ends, all it has added to the log is decoder
    invocations, at least one when it hands over the accumulators, and it
    has written no attribute. *)
Lemma decode_loop_log m maxlen minlen :
  forall fuel idx c z a p outs probs att_ws s,
    let r := decode_loop m fuel maxlen minlen idx c z a p outs probs att_ws s in
    exists n,
      calls r.2 = calls s ++ repeat Decoder n /\
      same_cache s r.2 /\
      (forall acc, r.1 = Done acc -> (1 <= n)%nat).
Proof.
  intros fuel idx c z a p outs probs att_ws s r. subst r.
  apply (decode_loop_rule m maxlen minlen
           (fun _ _ _ _ _ _ s1 =>
              exists k, calls s1 = calls s ++ repeat Decoder k /\ same_cache s s1)
           (fun o s1 =>
              exists n, calls s1 = calls s ++ repeat Decoder n /\ same_cache s s1 /\
                        (forall acc, o = Done acc -> (1 <= n)%nat))).
  - intros _ _ _ _ _ _ s1 (k & Hk & Hc). exists k.
    repeat split; try assumption; try apply Hc. discriminate.
  - intros _ _ _ _ _ _ s1 e (k & Hk & Hc) _. exists k.
    repeat split; try assumption; try apply Hc. discriminate.
  - intros _ _ _ _ _ _ s1 feed e (k & Hk & Hc) _ _. exists (S k). cbn [log calls].
    rewrite Hk, <- app_assoc, repeat_snoc.
    repeat split; try apply Hc. discriminate.
  - intros _ _ _ _ _ _ s1 feed res (k & Hk & Hc) _ _ _. exists (S k).
    cbn [log calls]. rewrite Hk, <- app_assoc, repeat_snoc.
    repeat split; try apply Hc. discriminate.
  - intros _ _ _ _ _ _ s1 feed out prob a' p' cz e (k & Hk & Hc) _ _ _.
    exists (S k). cbn [log calls]. rewrite Hk, <- app_assoc, repeat_snoc.
    repeat split; try apply Hc. discriminate.
  - intros _ _ _ _ _ outs' probs' att_ws' s1 feed out prob a' p' cz cnt
      (k & Hk & Hc) _ _ _ _ _.
    exists (S k). cbn [log calls]. rewrite Hk, <- app_assoc, repeat_snoc.
    repeat split; try apply Hc. intros _ _. lia.
  - intros _ _ _ _ _ outs' probs' att_ws' s1 feed out prob a' p' cz cnt
      (k & Hk & Hc) _ _ _ _.
    exists (S k). cbn [log calls]. rewrite Hk, <- app_assoc, repeat_snoc.
    repeat split; apply Hc.
  - exists 0%nat. cbn [repeat]. rewrite app_nil_r. repeat split.
Qed.

Lemma init_state_log m x s :
  let r := init_state m x s in
  match r.1 with
  | Done _ => calls r.2 = calls s ++ [Predecoder]
  | Raised _ => calls r.2 = calls s \/ calls r.2 = calls s ++ [Predecoder]
  | OutOfFuel => False
  end.
Proof.
  cbn zeta. destruct (shape x) as [| l rest] eqn:Hshape.
  - rewrite init_state_no_axis by exact Hshape. left. reflexivity.
  - destruct (predecoder m ["pre_compute_enc_h"]
                {[ "enc_h" := mk_ndarray (1%nat :: shape x) (data x) ]})
      as [[| p ps] | e] eqn:Hpre.
    + rewrite (init_state_no_output m x l rest Hshape s Hpre). right. reflexivity.
    + rewrite (init_state_done m x l rest Hshape s p ps Hpre). reflexivity.
    + rewrite (init_state_raised m x l rest Hshape s e Hpre). right. reflexivity.
Qed.

Lemma finish_log m acc s :
  let r := finish m acc s in
  match r.1 with
  | Done _ =>
      calls r.2 = calls s ++ (if has_postdecoder m then [Postdecoder] else [])
  | Raised _ =>
      calls r.2 = calls s \/
      (has_postdecoder m = true /\ calls r.2 = calls s ++ [Postdecoder])
  | OutOfFuel => False
  end.
Proof.
  destruct acc as [[outs probs] att_ws]. cbn zeta.
  unfold finish, has_postdecoder, bind.
  destruct (np_concatenate outs 2) as [buf | e]; cbn [lift ret raise fst snd];
    [| left; reflexivity].
  destruct (postdecoder m) as [post |].
  - unfold run. destruct (post ["out"] {[ "x" := buf ]}) as [[| f r] | e];
      cbn [lift ret raise first_output fst snd];
      try (right; split; reflexivity).
    destruct (np_concatenate probs 0) as [pr | e]; cbn [lift ret raise fst snd];
      [| right; split; reflexivity].
    destruct (np_concatenate att_ws 0) as [aw | e]; cbn [lift ret raise fst snd];
      [reflexivity | right; split; reflexivity].
  - cbn [ret fst snd].
    destruct (np_concatenate probs 0) as [pr | e]; cbn [lift ret raise fst snd];
      [| left; reflexivity].
    destruct (np_concatenate att_ws 0) as [aw | e]; cbn [lift ret raise fst snd];
      [rewrite app_nil_r; reflexivity | left; reflexivity].
Qed.

Lemma call_log_form m fuel text feats sids spembs lids s :
  let r := __call__ m fuel text feats sids spembs lids s in
  exists n l,
    calls r.2 = calls s ++ l /\
    l `prefix_of` call_log n (has_postdecoder m) /\
    (forall d, r.1 = Done d -> l = call_log n (has_postdecoder m) /\ (1 <= n)%nat).
Proof.
  cbn zeta.
  destruct (__call__ m fuel text feats sids spembs lids s) as [o s'] eqn:E.
  cbn [fst snd]. unfold __call__, bind in E.
  assert ([Encoder] `prefix_of` call_log 0 (has_postdecoder m)) as Henc
    by (eexists; reflexivity).
  assert (forall n, ([Encoder; Predecoder] ++ repeat Decoder n)
                      `prefix_of` call_log n (has_postdecoder m)) as Hdec
    by (intros n; unfold call_log; apply prefix_app, prefix_app_r; reflexivity).
  destruct (get_input_enc m text feats sids spembs lids) as [input_enc | e];
    cbn [lift ret raise] in E.
  2:{ injection E as <- <-. exists 0%nat, []. rewrite app_nil_r.
      split; [reflexivity |]. split; [apply prefix_nil | discriminate]. }
  unfold run at 1 in E.
  destruct (encoder m ["h"] input_enc) as [hs | e]; cbn [lift ret raise] in E.
  2:{ injection E as <- <-. exists 0%nat, [Encoder].
      split; [reflexivity |]. split; [exact Henc | discriminate]. }
  destruct (first_output hs) as [h | e]; cbn [lift ret raise] in E.
  2:{ injection E as <- <-. exists 0%nat, [Encoder].
      split; [reflexivity |]. split; [exact Henc | discriminate]. }
  destruct (py_len text) as [len | e]; cbn [lift ret raise] in E.
  2:{ injection E as <- <-. exists 0%nat, [Encoder].
      split; [reflexivity |]. split; [exact Henc | discriminate]. }
  destruct (int_times len (maxlenratio (config m))) as [maxlen | e];
    cbn [lift ret raise] in E.
  2:{ injection E as <- <-. exists 0%nat, [Encoder].
      split; [reflexivity |]. split; [exact Henc | discriminate]. }
  destruct (int_times len (minlenratio (config m))) as [minlen | e];
    cbn [lift ret raise] in E.
  2:{ injection E as <- <-. exists 0%nat, [Encoder].
      split; [reflexivity |]. split; [exact Henc | discriminate]. }
  pose proof (init_state_log m h (log Encoder s)) as Hinit. cbn zeta in Hinit.
  destruct (init_state m h (log Encoder s))
    as [[[[[c_list z_list] a_prev] prev_out] | e |] s1]; cbn [fst snd] in Hinit.
  2:{ injection E as <- <-. destruct Hinit as [-> | ->]; cbn [log calls].
      - exists 0%nat, [Encoder]. split; [reflexivity |].
        split; [exact Henc | discriminate].
      - exists 0%nat, [Encoder; Predecoder]. rewrite <- app_assoc.
        split; [reflexivity |]. split; [apply (Hdec 0%nat) | discriminate]. }
  2:{ destruct Hinit. }
  cbn [log calls] in Hinit. rewrite <- app_assoc in Hinit. cbn [app] in Hinit.
  destruct (decode_loop_log m maxlen minlen fuel 0
              c_list z_list a_prev prev_out [] [] [] s1) as (n & Hloop & _ & Hn).
  destruct (decode_loop m fuel _ _ 0 c_list z_list a_prev prev_out [] [] [] s1)
    as [[acc | e |] s2]; cbn [fst snd] in Hloop, Hn.
  2,3: (injection E as <- <-;
        exists n, ([Encoder; Predecoder] ++ repeat Decoder n);
        rewrite Hloop, Hinit, <- app_assoc;
        split; [reflexivity |]; split; [apply Hdec | discriminate]).
  pose proof (finish_log m acc s2) as Hfin. cbn zeta in Hfin. rewrite E in Hfin.
  cbn [fst snd] in Hfin. destruct o as [d | e |].
  - exists n, (call_log n (has_postdecoder m)).
    rewrite Hfin, Hloop, Hinit. unfold call_log. rewrite <- !app_assoc.
    split; [reflexivity |]. split; [reflexivity |].
    intros d' _. split; [reflexivity |]. eapply Hn. reflexivity.
  - destruct Hfin as [-> | [Hpost ->]].
    + exists n, ([Encoder; Predecoder] ++ repeat Decoder n).
      rewrite Hloop, Hinit, <- app_assoc.
      split; [reflexivity |]. split; [apply Hdec | discriminate].
    + exists n, (call_log n (has_postdecoder m)).
      rewrite Hloop, Hinit, Hpost. unfold call_log. rewrite <- !app_assoc.
      split; [reflexivity |]. split; [reflexivity | discriminate].
  - destruct Hfin.
Qed.

(** X6. Whatever way a call ends, by returning, by raising or by being cut
    off, the sessions it has invoked are an initial part of: the encoder
    once, the predecoder once, the decoder some number of times, the
    postdecoder once and only if the model has one.  So nothing is decoded
    before the projection is computed and nothing is post-processed before
    the loop has ended. *)
Theorem session_order m fuel text feats sids spembs lids s :
  let r := __call__ m fuel text feats sids spembs lids s in
  exists n l,
    calls r.2 = calls s ++ l /\
    l `prefix_of` call_log n (has_postdecoder m).
Proof.
  cbn zeta.
  destruct (call_log_form m fuel text feats sids spembs lids s) as (n & l & H1 & H2 & _).
  exists n, l. split; assumption.
Qed.

(** X7. A call that returns has invoked the encoder once, the predecoder
    once, the decoder at least once, and the postdecoder exactly once when
    the model has one, in this order and nothing else. *)
Theorem returned_call_log m fuel text feats sids spembs lids s d s' :
  __call__ m fuel text feats sids spembs lids s = (Done d, s') ->
  exists n, (1 <= n)%nat /\ calls s' = calls s ++ call_log n (has_postdecoder m).
Proof.
  intros Hcall.
  destruct (call_log_form m fuel text feats sids spembs lids s) as (n & l & H1 & _ & H3).
  rewrite Hcall in H1, H3. cbn [fst snd] in H1, H3.
  destruct (H3 d eq_refl) as [-> Hn]. exists n. split; assumption.
Qed.

(** With a postdecoder: encoder, predecoder, three decoder rounds,
    postdecoder. *)
Lemma returned_call_log_witness :
  let m := Probe.model 10 0 1 (Demo.dec 3 1 []) 1 (Some Probe.twice) in
  __call__ m 5 Demo.text10 None None None None fresh
  = (Done Probe.result3, Probe.after3) /\
  exists n, (1 <= n)%nat /\ calls Probe.after3 = calls fresh ++ call_log n true.
Proof.
  intros m.
  assert (__call__ m 5 Demo.text10 None None None None fresh
          = (Done Probe.result3, Probe.after3)) as Hcall by reflexivity.
  split; [exact Hcall |].
  apply (returned_call_log m 5 Demo.text10 None None None None fresh
           Probe.result3 Probe.after3 Hcall).
Defined.

(** ** Where exceptions come from *)

Lemma get_input_enc_raise m text feats sids spembs lids e :
  get_input_enc m text feats sids spembs lids = Raise e -> e = AssertionError.
Proof.
  unfold get_input_enc. intros H.
  repeat match type of H with
         | rbind (_set_input_dict ?m ?d ?k ?v) _ = _ =>
             let E := fresh "E" in
             destruct (_set_input_dict m d k v) eqn:E; cbn [rbind] in H;
             [| injection H as <-; exact (_set_input_dict_raise _ _ _ _ _ E)]
         end.
  discriminate H.
Qed.

Lemma int_times_raise n ratio e :
  int_times n ratio = Raise e -> e = OverflowError \/ e = ValueError.
Proof.
  unfold int_times, py_mul, float_of_int, to_float.
  destruct (overflows binary64 (round_to binary64 (inject_Z (Z.of_nat n))));
    cbn [rbind]; [intros [= <-]; left; reflexivity |].
  destruct ratio as [b | negative |]; cbn [py_int].
  - destruct (overflows binary64 _); cbn [py_int]; [| discriminate].
    intros [= <-]. left. reflexivity.
  - destruct (Qeq_bool _ 0); cbn [py_int]; intros [= <-];
      [right | left]; reflexivity.
  - intros [= <-]. right. reflexivity.
Qed.

Lemma np_concatenate_raise arrs axis e :
  np_concatenate arrs axis = Raise e -> e = ValueError.
Proof.
  unfold np_concatenate. destruct arrs as [| a rest]; [congruence |].
  destruct (negb _); [congruence |]. destruct (negb _); congruence.
Qed.

Lemma stop_count_raise thr prob e :
  stop_count thr prob = Raise e -> e = TypeError.
Proof.
  unfold stop_count. destruct (shape prob) as [| [| k] rest]; try congruence.
  destruct (Nat.eqb _ _); congruence.
Qed.

Lemma init_state_raise m x s e s' :
  init_state m x s = (Raised e, s') ->
  e = IndexError \/ exists names feed, predecoder m names feed = Raise e.
Proof.
  intros Hinit. destruct (shape x) as [| l rest] eqn:Hshape.
  - rewrite init_state_no_axis in Hinit by exact Hshape.
    injection Hinit as <- _. left. reflexivity.
  - destruct (predecoder m ["pre_compute_enc_h"]
                {[ "enc_h" := mk_ndarray (1%nat :: shape x) (data x) ]})
      as [[| p ps] | e'] eqn:Hpre.
    + rewrite (init_state_no_output m x l rest Hshape s Hpre) in Hinit.
      injection Hinit as <- _. left. reflexivity.
    + rewrite (init_state_done m x l rest Hshape s p ps Hpre) in Hinit.
      discriminate Hinit.
    + rewrite (init_state_raised m x l rest Hshape s e' Hpre) in Hinit.
      injection Hinit as <- _. right. eauto.
Qed.

Lemma finish_raise m acc s e s' :
  finish m acc s = (Raised e, s') ->
  e = ValueError \/ e = IndexError \/
  exists post names feed, postdecoder m = Some post /\ post names feed = Raise e.
Proof.
  destruct acc as [[outs probs] att_ws]. unfold finish, bind. intros H.
  destruct (np_concatenate outs 2) as [buf | e1] eqn:E1; cbn [lift ret raise] in H.
  2:{ injection H as <- _. left. eapply np_concatenate_raise. exact E1. }
  destruct (postdecoder m) as [post |] eqn:Hpost.
  - unfold run, bind in H.
    destruct (post ["out"] {[ "x" := buf ]}) as [[| f r] | e4] eqn:E4;
      cbn [lift ret raise first_output] in H.
    + injection H as <- _. right. left. reflexivity.
    + destruct (np_concatenate probs 0) as [pr | e2] eqn:E2;
        cbn [lift ret raise] in H.
      2:{ injection H as <- _. left. eapply np_concatenate_raise. exact E2. }
      destruct (np_concatenate att_ws 0) as [aw | e3] eqn:E3;
        cbn [lift ret raise] in H; [discriminate H |].
      injection H as <- _. left. eapply np_concatenate_raise. exact E3.
    + injection H as <- _. right. right. eauto.
  - cbn [ret] in H.
    destruct (np_concatenate probs 0) as [pr | e2] eqn:E2;
      cbn [lift ret raise] in H.
    2:{ injection H as <- _. left. eapply np_concatenate_raise. exact E2. }
    destruct (np_concatenate att_ws 0) as [aw | e3] eqn:E3;
      cbn [lift ret raise] in H; [discriminate H |].
    injection H as <- _. left. eapply np_concatenate_raise. exact E3.
Qed.

Lemma cached_log id s : cached s -> cached (log id s).
Proof. intros H. exact H. Qed.

Lemma decode_loop_raise m maxlen minlen fuel idx c z a p outs probs att_ws s :
  cached s ->
  let r := decode_loop m fuel maxlen minlen idx c z a p outs probs att_ws s in
  cached r.2 /\
  forall e, r.1 = Raised e ->
    e = ValueError \/ e = TypeError \/
    exists names feed, decoder m names feed = Raise e.
Proof.
  intros Hcached. cbn zeta.
  apply (decode_loop_rule m maxlen minlen
           (fun _ _ _ _ _ _ s1 => cached s1)
           (fun o s1 =>
              cached s1 /\
              forall e, o = Raised e ->
                e = ValueError \/ e = TypeError \/
                exists names feed, decoder m names feed = Raise e)).
  - intros ? ? ? ? ? ? s1 H. split; [exact H | discriminate].
  - intros ? c' z' a' p' ? s1 e H Hfeed.
    destruct (cached_get_input_dec c' z' a' p' s1 H) as [feed Hok].
    rewrite Hok in Hfeed. discriminate Hfeed.
  - intros ? ? ? ? ? ? s1 feed e H _ Hdec. split; [exact H |].
    intros e' [= <-]. right. right. eauto.
  - intros ? ? ? ? ? ? s1 feed res H _ _ _. split; [exact H |].
    intros e' [= <-]. left. reflexivity.
  - intros ? ? ? ? ? ? s1 feed out prob a' p' cz e H _ _ Hcnt. split; [exact H |].
    intros e' [= <-]. right. left. eapply stop_count_raise. exact Hcnt.
  - intros ? ? ? ? ? ? ? ? s1 feed out prob a' p' cz cnt H _ _ _ _ _.
    split; [exact H | discriminate].
  - intros ? ? ? ? ? ? ? ? s1 feed out prob a' p' cz cnt H _ _ _ _. exact H.
  - exact Hcached.
Qed.

(** X8. An exception that leaves a call is an [AssertionError] (a declared
    input is missing), an [IndexError], a [TypeError] or a [ValueError] (an
    array of the wrong rank or arity, a length bound that is not a number),
    an [OverflowError] (a length bound beyond the floats), or it was raised
    by one of the sessions.  In particular the cached attributes are never
    read before they are written: reading them raises no [AttributeError].
    The configuration is taken to have the fields the call reads. *)
Theorem call_exceptions m fuel text feats sids spembs lids s e s' :
  __call__ m fuel text feats sids spembs lids s = (Raised e, s') ->
  e ∈ [AssertionError; IndexError; OverflowError; TypeError; ValueError]
  \/ session_raises m e.
Proof.
  unfold __call__, bind, session_raises. intros H.
  assert (forall x y z w v : exn,
            e = x \/ e = y \/ e = z \/ e = w \/ e = v -> e ∈ [x; y; z; w; v])
    as Hin.
  { intros x y z w v Hor. rewrite !elem_of_cons. tauto. }
  destruct (get_input_enc m text feats sids spembs lids) as [input_enc | e0] eqn:E0;
    cbn [lift ret raise] in H.
  2:{ injection H as <- _. apply get_input_enc_raise in E0 as ->.
      left. apply Hin. tauto. }
  unfold run at 1 in H.
  destruct (encoder m ["h"] input_enc) as [hs | e1] eqn:E1; cbn [lift ret raise] in H.
  2:{ injection H as <- _. right. left. eauto. }
  destruct hs as [| h hs]; cbn [first_output lift ret raise] in H.
  { injection H as <- _. left. apply Hin. tauto. }
  destruct text as [[| len tshape] tdata]; cbn [py_len shape lift ret raise] in H.
  { injection H as <- _. left. apply Hin. tauto. }
  destruct (int_times len (maxlenratio (config m))) as [maxlen | e4] eqn:E4;
    cbn [lift ret raise] in H.
  2:{ injection H as <- _. left. apply Hin.
      destruct (int_times_raise _ _ _ E4); tauto. }
  destruct (int_times len (minlenratio (config m))) as [minlen | e5] eqn:E5;
    cbn [lift ret raise] in H.
  2:{ injection H as <- _. left. apply Hin.
      destruct (int_times_raise _ _ _ E5); tauto. }
  destruct (init_state m h (log Encoder s))
    as [[[[[c_list z_list] a_prev] prev_out] | e2 |] s1] eqn:E2.
  2:{ injection H as <- _. apply init_state_raise in E2 as [-> | Hpre].
      - left. apply Hin. tauto.
      - right. right. left. exact Hpre. }
  2:{ discriminate H. }
  apply init_state_cached in E2.
  pose proof (decode_loop_raise m maxlen minlen fuel 0
                c_list z_list a_prev prev_out [] [] [] s1 E2) as [_ Hloop].
  destruct (decode_loop m fuel _ _ 0 c_list z_list a_prev prev_out [] [] [] s1)
    as [[acc | e3 |] s2]; cbn [fst snd] in Hloop.
  - apply finish_raise in H as [-> | [-> | Hpost]].
    + left. apply Hin. tauto.
    + left. apply Hin. tauto.
    + right. right. right. right. exact Hpost.
  - injection H as <- _. destruct (Hloop e3 eq_refl) as [-> | [-> | Hdec]].
    + left. apply Hin. tauto.
    + left. apply Hin. tauto.
    + right. right. right. left. exact Hdec.
  - discriminate H.
Qed.

(** With [maxlenratio] 1e308 the product with a length of ten is an
    infinity: the call raises [OverflowError] once the encoder has run. *)
Lemma call_exceptions_witness :
  let m := Probe.model (inject_Z (10 ^ 308)) 0 1 Probe.short 1 None in
  __call__ m 5 Demo.text10 None None None None fresh
  = (Raised OverflowError, log Encoder fresh) /\
  (OverflowError ∈ [AssertionError; IndexError; OverflowError; TypeError; ValueError]
   \/ session_raises m OverflowError).
Proof.
  intros m.
  assert (__call__ m 5 Demo.text10 None None None None fresh
          = (Raised OverflowError, log Encoder fresh)) as Hcall
    by (vm_compute; reflexivity).
  split; [exact Hcall |].
  apply (call_exceptions m 5 Demo.text10 None None None None fresh OverflowError
           (log Encoder fresh) Hcall).
Defined.

(** ** How long the loop runs *)

Section Bounds.

Variable m : Model.
Variables maxlen minlen idx0 : Z.
Variable s0 : Self.

Let rf := reduction_factor (config m).

(** What holds when a round starts: [k] rounds are behind, each at an index
    below the larger of the two bounds. *)
Let started (idx : Z) (s : Self) : Prop :=
  exists k : nat,
    idx = idx0 + Z.of_nat k * rf /\
    calls s = calls s0 ++ repeat Decoder k /\
    forall j : nat, (1 <= j <= k)%nat -> idx0 + Z.of_nat j * rf < Z.max maxlen minlen.

(** What holds when the loop hands over: the last round is at or beyond
    [minlen], was triggered by its stop probabilities or by [maxlen], and
    every round before it was below the larger bound. *)
Let ended (probs : list ndarray) (s : Self) : Prop :=
  exists n : nat,
    (1 <= n)%nat /\
    calls s = calls s0 ++ repeat Decoder n /\
    minlen <= idx0 + Z.of_nat n * rf /\
    (forall j : nat, (1 <= j < n)%nat ->
                     idx0 + Z.of_nat j * rf < Z.max maxlen minlen) /\
    exists prob cnt,
      last probs = Some prob /\
      stop_count (threshold (config m)) prob = Ok cnt /\
      (0 < cnt \/ maxlen <= idx0 + Z.of_nat n * rf).

Lemma decode_loop_bounds fuel c z a p outs probs att_ws :
  let r := decode_loop m fuel maxlen minlen idx0 c z a p outs probs att_ws s0 in
  forall outs' probs' att_ws',
    r.1 = Done (outs', probs', att_ws') -> ended probs' r.2.
Proof.
  cbn zeta.
  apply (decode_loop_rule m maxlen minlen
           (fun idx _ _ _ _ _ s => started idx s)
           (fun o s => forall outs' probs' att_ws',
                         o = Done (outs', probs', att_ws') -> ended probs' s)).
  - discriminate.
  - discriminate.
  - discriminate.
  - discriminate.
  - discriminate.
  - intros idx ? ? ? ? ? probs1 ? s feed out prob a' p' cz cnt
      (k & Hidx & Hcalls & Hbelow) _ _ Hcnt Htrigger Hmin outs' probs' att_ws' [= _ <- _].
    fold rf in Htrigger, Hmin. exists (S k).
    assert (idx0 + Z.of_nat (S k) * rf = idx + rf) as Hnext by lia.
    rewrite Hnext. split; [lia |]. split.
    { cbn [log calls]. rewrite Hcalls, <- app_assoc, repeat_snoc. reflexivity. }
    split; [exact Hmin |]. split.
    { intros j Hj. apply Hbelow. lia. }
    exists prob, cnt. rewrite last_snoc.
    split; [reflexivity |]. split; [exact Hcnt | exact Htrigger].
  - intros idx ? ? ? ? ? ? ? s feed out prob a' p' cz cnt
      (k & Hidx & Hcalls & Hbelow) _ _ _ Hcontinue.
    fold rf in Hcontinue |- *. exists (S k).
    split; [lia |]. split.
    { cbn [log calls]. rewrite Hcalls, <- app_assoc, repeat_snoc. reflexivity. }
    intros j Hj. destruct (decide (j = S k)) as [-> | Hne].
    + replace (idx0 + Z.of_nat (S k) * rf) with (idx + rf) by lia. lia.
    + apply Hbelow. lia.
  - exists 0%nat. split; [lia |]. split.
    { cbn [repeat]. rewrite app_nil_r. reflexivity. }
    intros j Hj. lia.
Qed.

End Bounds.

(** X9. When the loop hands over after [n] rounds, the index [n *
    reduction_factor] it stops at has reached [minlen]; the round was
    triggered, by a stop probability at or above the threshold or by
    [maxlen]; and every earlier round was at an index below the larger of
    [maxlen] and [minlen], so that the loop has not run past the first index
    that reaches both. *)
Theorem returned_length_bounds m fuel maxlen minlen c_list z_list a_prev prev_out s
    outs probs att_ws s' :
  decode_loop m fuel maxlen minlen 0 c_list z_list a_prev prev_out [] [] [] s
  = (Done (outs, probs, att_ws), s') ->
  exists n : nat,
    (1 <= n)%nat /\
    calls s' = calls s ++ repeat Decoder n /\
    minlen <= Z.of_nat n * reduction_factor (config m) /\
    (forall j : nat, (1 <= j < n)%nat ->
       Z.of_nat j * reduction_factor (config m) < Z.max maxlen minlen) /\
    exists prob cnt,
      last probs = Some prob /\
      stop_count (threshold (config m)) prob = Ok cnt /\
      (0 < cnt \/ maxlen <= Z.of_nat n * reduction_factor (config m)).
Proof.
  intros Hrun.
  pose proof (decode_loop_bounds m maxlen minlen 0 s fuel c_list z_list a_prev
                prev_out [] [] []) as Hb.
  cbn zeta in Hb. rewrite Hrun in Hb.
  destruct (Hb outs probs att_ws eq_refl)
    as (n & Hn & Hcalls & Hmin & Hbelow & prob & cnt & Hlast & Hcnt & Htrig).
  exists n. split; [exact Hn |]. split; [exact Hcalls |].
  split; [lia |]. split.
  - intros j Hj. specialize (Hbelow j Hj). lia.
  - exists prob, cnt. split; [exact Hlast |]. split; [exact Hcnt | lia].
Qed.

(** In the concrete model the end is signalled in round 3 while [maxlen] is
    100 and [minlen] is 0. *)
Lemma returned_length_bounds_witness :
  let m := Demo.model 10 0 1 3 [] ["text"] in
  exists outs probs att_ws s',
    decode_loop m 5 100 0 0 [Demo.zeros11] [Demo.zeros11] Demo.att10 Demo.frame0
                [] [] [] Demo.ready
    = (Done (outs, probs, att_ws), s') /\
    exists n : nat,
      (1 <= n)%nat /\
      calls s' = calls Demo.ready ++ repeat Decoder n /\
      0 <= Z.of_nat n * 1 /\
      (forall j : nat, (1 <= j < n)%nat -> Z.of_nat j * 1 < Z.max 100 0) /\
      exists prob cnt,
        last probs = Some prob /\
        stop_count (1 # 2) prob = Ok cnt /\
        (0 < cnt \/ 100 <= Z.of_nat n * 1).
Proof.
  intros m. do 4 eexists. split.
  - vm_compute. reflexivity.
  - eapply (returned_length_bounds m 5 100 0 [Demo.zeros11] [Demo.zeros11]
              Demo.att10 Demo.frame0 Demo.ready).
    vm_compute. reflexivity.
Defined.

(** ** The arrays of the result *)

(** Blocks that agree beyond the first axis, stacked along it. *)
Lemma np_concatenate_rows (k : nat) (tail : list nat) (blocks : list ndarray) :
  (1 <= length blocks)%nat ->
  Forall (fun b => shape b = k :: tail) blocks ->
  exists buf, np_concatenate blocks 0 = Ok buf /\
              shape buf = (length blocks * k)%nat :: tail.
Proof.
  intros Hne Hall. destruct blocks as [| x blocks]; [cbn in Hne; lia |].
  apply Forall_cons in Hall. destruct Hall as [Hx Hall].
  clear Hne. unfold np_concatenate. rewrite Hx. cbn [length Nat.ltb Nat.leb negb].
  assert (forallb (same_but_axis 0 x) blocks = true) as ->.
  { induction Hall as [| y blocks Hy _ IH]; [reflexivity |].
    cbn [forallb]. rewrite IH, andb_true_r.
    unfold same_but_axis. rewrite Hx, Hy. rewrite Nat.eqb_refl. cbn [andb].
    apply bool_decide_eq_true. reflexivity. }
  cbn [negb]. eexists. split; [reflexivity |].
  cbn [shape replace_at firstn skipn app]. f_equal.
  assert (forall l, Forall (fun b => shape b = k :: tail) l ->
                    fold_right Nat.add 0%nat (map (axis_len 0) l)
                    = (length l * k)%nat) as Hsum.
  { intros l Hl. induction Hl as [| y l Hy _ IH]; [reflexivity |].
    cbn [map fold_right length]. rewrite IH. unfold axis_len. rewrite Hy.
    cbn [nth]. lia. }
  rewrite (Hsum (x :: blocks)) by (constructor; assumption).
  reflexivity.
Qed.

(** What [finish] has done when it returns. *)
Lemma finish_done m outs probs att_ws s d s' :
  finish m (outs, probs, att_ws) s = (Done d, s') ->
  exists buf frames pr aw,
    np_concatenate outs 2 = Ok buf /\
    np_concatenate probs 0 = Ok pr /\
    np_concatenate att_ws 0 = Ok aw /\
    d = <[ "att_w" := aw ]> (<[ "prob" := pr ]> {[ "feat_gen" := frames ]}) /\
    match postdecoder m with
    | Some post =>
        exists rest, post ["out"] {[ "x" := buf ]} = Ok (frames :: rest)
    | None => frames = buf
    end.
Proof.
  unfold finish, bind. intros H.
  destruct (np_concatenate outs 2) as [buf | e1]; cbn [lift ret raise] in H;
    [| discriminate H].
  destruct (postdecoder m) as [post |].
  - unfold run, bind in H.
    destruct (post ["out"] {[ "x" := buf ]}) as [[| f r] | e4] eqn:E4;
      cbn [lift ret raise first_output] in H; try discriminate H.
    destruct (np_concatenate probs 0) as [pr | e2]; cbn [lift ret raise] in H;
      [| discriminate H].
    destruct (np_concatenate att_ws 0) as [aw | e3]; cbn [lift ret raise] in H;
      [| discriminate H].
    injection H as <- _. exists buf, f, pr, aw.
    do 4 (split; [reflexivity |]). exists r. exact E4.
  - cbn [ret] in H.
    destruct (np_concatenate probs 0) as [pr | e2]; cbn [lift ret raise] in H;
      [| discriminate H].
    destruct (np_concatenate att_ws 0) as [aw | e3]; cbn [lift ret raise] in H;
      [| discriminate H].
    injection H as <- _. exists buf, buf, pr, aw.
    do 4 (split; [reflexivity |]). reflexivity.
Qed.

Section Entries.

Variable m : Model.
Variables out_ok prob_ok att_ok : ndarray -> Prop.
Hypothesis Hdecoder :
  forall names feed out prob a rest,
    decoder m names feed = Ok (out :: prob :: a :: rest) ->
    out_ok out /\ prob_ok prob /\ att_ok a.

Variable s0 : Self.

Let filled (acc : accs) (s : Self) (k : nat) : Prop :=
  Forall out_ok acc.1.1 /\ Forall prob_ok acc.1.2 /\ Forall att_ok acc.2 /\
  length acc.1.1 = k /\ length acc.1.2 = k /\ length acc.2 = k /\
  calls s = calls s0 ++ repeat Decoder k.

Lemma filled_snoc outs probs att_ws s k out prob a :
  filled (outs, probs, att_ws) s k ->
  out_ok out -> prob_ok prob -> att_ok a ->
  filled (outs ++ [out], probs ++ [prob], att_ws ++ [a]) (log Decoder s) (S k).
Proof.
  intros (Ho & Hp & Ha & Hlo & Hlp & Hla & Hcalls) Hout Hprob Hatt.
  unfold filled in *. cbn [fst snd log calls] in *.
  rewrite !length_app, Hlo, Hlp, Hla, Hcalls, <- app_assoc, repeat_snoc.
  cbn [length]. repeat split; try lia;
    apply Forall_app; split; try assumption; constructor; auto.
Qed.

(** Every accumulator holds one entry for each round, and each entry is an
    array the decoder returned in the corresponding position. *)
Lemma decode_loop_entries maxlen minlen fuel idx c z a p :
  let r := decode_loop m fuel maxlen minlen idx c z a p [] [] [] s0 in
  forall acc, r.1 = Done acc -> exists n, (1 <= n)%nat /\ filled acc r.2 n.
Proof.
  cbn zeta.
  apply (decode_loop_rule m maxlen minlen
           (fun _ _ _ _ _ acc s => exists k, filled acc s k)
           (fun o s => forall acc, o = Done acc ->
                                   exists n, (1 <= n)%nat /\ filled acc s n)).
  - discriminate.
  - discriminate.
  - discriminate.
  - discriminate.
  - discriminate.
  - intros ? ? ? ? ? outs probs att_ws s feed out prob a' p' cz cnt
      (k & Hk) _ Hdec _ _ _ acc [= <-].
    destruct (Hdecoder _ _ _ _ _ _ Hdec) as (Ho & Hp & Ha).
    exists (S k). split; [lia |]. apply filled_snoc; assumption.
  - intros ? ? ? ? ? outs probs att_ws s feed out prob a' p' cz cnt
      (k & Hk) _ Hdec _ _.
    destruct (Hdecoder _ _ _ _ _ _ Hdec) as (Ho & Hp & Ha).
    exists (S k). apply filled_snoc; assumption.
  - exists 0%nat. unfold filled. cbn [fst snd length repeat].
    rewrite app_nil_r. repeat split; constructor.
Qed.

End Entries.

(** A call that returns, taken apart. *)
Lemma call_done_inv m fuel text feats sids spembs lids s d s' :
  __call__ m fuel text feats sids spembs lids s = (Done d, s') ->
  exists len c_list z_list a_prev prev_out s1 acc s2,
    py_len text = Ok len /\
    calls s1 = calls s ++ [Encoder; Predecoder] /\
    decode_loop m fuel (length_bound len (maxlenratio (config m)))
                (length_bound len (minlenratio (config m))) 0
                c_list z_list a_prev prev_out [] [] [] s1
    = (Done acc, s2) /\
    finish m acc s2 = (Done d, s') /\
    calls s' = calls s2 ++ (if has_postdecoder m then [Postdecoder] else []).
Proof.
  unfold __call__, bind. intros Hcall.
  destruct (get_input_enc m text feats sids spembs lids) as [input_enc | e];
    cbn [lift ret raise] in Hcall; [| discriminate Hcall].
  unfold run at 1 in Hcall.
  destruct (encoder m ["h"] input_enc) as [hs | e]; cbn [lift ret raise] in Hcall;
    [| discriminate Hcall].
  destruct (first_output hs) as [h | e]; cbn [lift ret raise] in Hcall;
    [| discriminate Hcall].
  destruct (py_len text) as [len | e]; cbn [lift ret raise] in Hcall;
    [| discriminate Hcall].
  destruct (int_times len (maxlenratio (config m))) as [maxlen | e] eqn:Hmax;
    cbn [lift ret raise] in Hcall; [| discriminate Hcall].
  destruct (int_times len (minlenratio (config m))) as [minlen | e] eqn:Hmin;
    cbn [lift ret raise] in Hcall; [| discriminate Hcall].
  apply int_times_ok in Hmax, Hmin. subst maxlen minlen.
  pose proof (init_state_log m h (log Encoder s)) as Hinit. cbn zeta in Hinit.
  destruct (init_state m h (log Encoder s))
    as [[[[[c_list z_list] a_prev] prev_out] | e |] s1]; cbn [fst snd] in Hinit;
    try discriminate Hcall.
  destruct (decode_loop m fuel _ _ 0 c_list z_list a_prev prev_out [] [] [] s1)
    as [[acc | e |] s2] eqn:Hloop; try discriminate Hcall.
  pose proof (finish_log m acc s2) as Hfin. cbn zeta in Hfin.
  rewrite Hcall in Hfin. cbn [fst snd] in Hfin.
  exists len, c_list, z_list, a_prev, prev_out, s1, acc, s2.
  split; [reflexivity |]. split.
  { rewrite Hinit. cbn [log calls]. rewrite <- app_assoc. reflexivity. }
  split; [exact Hloop |]. split; [exact Hcall | exact Hfin].
Qed.

(** X10. The shapes of what a call returns, when every decoder invocation
    returns a block of [r] frames of [o] channels, [r] stop probabilities
    and one attention row over [l] positions.  After [n] decoder rounds the
    frame buffer is [1 x o x n r], [prob] has [n r] entries (one for each
    frame, not one for each round) and [att_w] is [n x l].  The frames are
    replaced by the postdecoder's first output when the model has one;
    [prob] and [att_w] never pass through it.  The dictionary has these
    three entries. *)
Theorem returned_arrays m (o r l : nat) fuel text feats sids spembs lids s d s' :
  (forall names feed out prob a rest,
     decoder m names feed = Ok (out :: prob :: a :: rest) ->
     shape out = [1%nat; o; r] /\ shape prob = [r] /\ shape a = [1%nat; l]) ->
  __call__ m fuel text feats sids spembs lids s = (Done d, s') ->
  exists (n : nat) buf frames pr aw,
    (1 <= n)%nat /\
    calls s' = calls s ++ call_log n (has_postdecoder m) /\
    d = <[ "att_w" := aw ]> (<[ "prob" := pr ]> {[ "feat_gen" := frames ]}) /\
    shape buf = [1%nat; o; (n * r)%nat] /\
    shape pr = [(n * r)%nat] /\
    shape aw = [n; l] /\
    match postdecoder m with
    | Some post => exists rest, post ["out"] {[ "x" := buf ]} = Ok (frames :: rest)
    | None => frames = buf
    end.
Proof.
  intros Hdecoder Hcall.
  destruct (call_done_inv _ _ _ _ _ _ _ _ _ _ Hcall)
    as (len & c_list & z_list & a_prev & prev_out & s1 & [[outs probs] att_ws] & s2
        & _ & Hs1 & Hloop & Hfin & Hs').
  pose proof (decode_loop_entries m
                (fun out => shape out = [1%nat; o; r])
                (fun prob => shape prob = [r])
                (fun a => shape a = [1%nat; l]) Hdecoder s1
                (length_bound len (maxlenratio (config m)))
                (length_bound len (minlenratio (config m))) fuel 0
                c_list z_list a_prev prev_out) as Hentries.
  cbn zeta in Hentries. rewrite Hloop in Hentries.
  destruct (Hentries _ eq_refl)
    as (n & Hn & Ho & Hp & Ha & Hlo & Hlp & Hla & Hcalls).
  cbn [fst snd] in *.
  destruct (finish_done _ _ _ _ _ _ _ Hfin)
    as (buf & frames & pr & aw & Hbuf & Hpr & Haw & -> & Hpost).
  destruct (np_concatenate_time 1 o r outs ltac:(lia) Ho) as (buf' & Hbuf' & Sbuf).
  destruct (np_concatenate_rows r [] probs ltac:(lia) Hp) as (pr' & Hpr' & Spr).
  destruct (np_concatenate_rows 1 [l] att_ws ltac:(lia) Ha) as (aw' & Haw' & Saw).
  rewrite Hbuf in Hbuf'. injection Hbuf' as <-.
  rewrite Hpr in Hpr'. injection Hpr' as <-.
  rewrite Haw in Haw'. injection Haw' as <-.
  exists n, buf, frames, pr, aw.
  split; [exact Hn |]. split.
  { rewrite Hs', Hcalls, Hs1. unfold call_log. rewrite <- !app_assoc. reflexivity. }
  split; [reflexivity |].
  rewrite Sbuf, Spr, Saw, Hlo, Hlp, Hla.
  split; [reflexivity |]. split; [reflexivity |]. split; [f_equal; lia | exact Hpost].
Qed.

(** Two rounds of two frames each: four frames, four stop probabilities,
    two attention rows. *)
Lemma returned_arrays_witness :
  let m := Probe.model (2 # 5) 0 2 (Probe.steady 2) 1 (Some Probe.twice) in
  __call__ m 5 Demo.text10 None None None None fresh
  = (Done Probe.result2, Probe.after2) /\
  exists (n : nat) buf frames pr aw,
    (1 <= n)%nat /\
    calls Probe.after2 = calls fresh ++ call_log n true /\
    Probe.result2
    = <[ "att_w" := aw ]> (<[ "prob" := pr ]> {[ "feat_gen" := frames ]}) /\
    shape buf = [1%nat; 2%nat; (n * 2)%nat] /\
    shape pr = [(n * 2)%nat] /\
    shape aw = [n; 10%nat] /\
    exists rest, Probe.twice ["out"] {[ "x" := buf ]} = Ok (frames :: rest).
Proof.
  intros m.
  assert (__call__ m 5 Demo.text10 None None None None fresh
          = (Done Probe.result2, Probe.after2)) as Hcall by reflexivity.
  split; [exact Hcall |].
  apply (returned_arrays m 2 2 10 5 Demo.text10 None None None None fresh
           Probe.result2 Probe.after2); [| exact Hcall].
  intros names feed out prob a rest [= <- <- <- _]. repeat split.
Defined.

(** ** When the loop ends and when it does not *)

(** X11. With a reduction factor of at least 1 every call comes to an end,
    whatever the two length bounds and whatever the sessions return: with
    as many rounds of fuel as the larger of [maxlen], [minlen] and 1 the
    call returns or raises, and more fuel gives the same outcome. *)
Theorem positive_reduction_factor_terminates m text feats sids spembs lids len s :
  1 <= reduction_factor (config m) ->
  py_len text = Ok len ->
  let enough := round_bound m len in
  (__call__ m enough text feats sids spembs lids s).1 <> OutOfFuel /\
  forall fuel, (enough <= fuel)%nat ->
    __call__ m fuel text feats sids spembs lids s
    = __call__ m enough text feats sids spembs lids s.
Proof. intros Hrf Hlen enough. apply call_outcome; assumption. Qed.

(** Ten tokens, [maxlen = 20], [minlen = 0]: twenty rounds are enough. *)
Lemma positive_reduction_factor_terminates_witness :
  let m := Demo.model 2 0 1 100 [] ["text"] in
  round_bound m 10 = 20%nat /\
  (__call__ m 20 Demo.text10 None None None None fresh).1 <> OutOfFuel /\
  forall fuel, (20 <= fuel)%nat ->
    __call__ m fuel Demo.text10 None None None None fresh
    = __call__ m 20 Demo.text10 None None None None fresh.
Proof.
  intros m. split; [reflexivity |].
  apply (positive_reduction_factor_terminates m Demo.text10 None None None None
           10%nat fresh).
  - discriminate.
  - reflexivity.
Defined.

(** X12. With a reduction factor of 0 or less the index never grows, and a
    loop that starts below [minlen] has no last round: as long as the
    decoder keeps returning at least four arrays with countable stop
    probabilities, the loop goes on, whatever the probabilities and
    whatever [maxlen]. *)
Theorem nonpositive_reduction_factor_loops m maxlen minlen idx c_list z_list
    a_prev prev_out outs probs att_ws s :
  reduction_factor (config m) <= 0 ->
  idx < minlen ->
  cached s ->
  (forall feed, exists out prob a p cz cnt,
     decoder m (decoder_output_names m) feed = Ok (out :: prob :: a :: p :: cz) /\
     stop_count (threshold (config m)) prob = Ok cnt) ->
  forall fuel,
    (decode_loop m fuel maxlen minlen idx c_list z_list a_prev prev_out
                 outs probs att_ws s).1 = OutOfFuel.
Proof.
  intros Hrf Hidx Hcached Hdecoder fuel.
  apply (decode_loop_rule m maxlen minlen
           (fun i _ _ _ _ _ s1 => i < minlen /\ cached s1)
           (fun o _ => o = OutOfFuel)).
  - reflexivity.
  - intros ? c z a p ? s1 e [_ Hc] Hfeed.
    destruct (cached_get_input_dec c z a p s1 Hc) as [feed Hok].
    rewrite Hok in Hfeed. discriminate Hfeed.
  - intros ? ? ? ? ? ? s1 feed e _ _ Hdec.
    destruct (Hdecoder feed) as (out & prob & a' & p' & cz & cnt & Hok & _).
    rewrite Hok in Hdec. discriminate Hdec.
  - intros ? ? ? ? ? ? s1 feed res _ _ Hdec Hlen.
    destruct (Hdecoder feed) as (out & prob & a' & p' & cz & cnt & Hok & _).
    rewrite Hok in Hdec. injection Hdec as <-. cbn [length] in Hlen. lia.
  - intros ? ? ? ? ? ? s1 feed out prob a' p' cz e _ _ Hdec Hcnt.
    destruct (Hdecoder feed) as (out1 & prob1 & a1 & p1 & cz1 & cnt & Hok & Hcount).
    rewrite Hok in Hdec. injection Hdec as <- <- <- <- <-.
    rewrite Hcount in Hcnt. discriminate Hcnt.
  - intros i ? ? ? ? ? ? ? s1 feed out prob a' p' cz cnt [Hi _] _ _ _ _ Hmin. lia.
  - intros i ? ? ? ? ? ? ? s1 feed out prob a' p' cz cnt [Hi Hc] _ _ _ _.
    split; [lia | exact Hc].
  - split; assumption.
Qed.

(** Reduction factor 0 and [minlen = 5]: forty rounds do not end the loop. *)
Lemma nonpositive_reduction_factor_loops_witness :
  let m := Probe.model 10 (1 # 2) 0 (Probe.steady 0) 1 None in
  reduction_factor (config m) <= 0 /\ 0 < 5 /\ cached Demo.ready /\
  (decode_loop m 40 100 5 0 [Demo.zeros11] [Demo.zeros11] Demo.att10
               Demo.frame0 [] [] [] Demo.ready).1 = OutOfFuel.
Proof.
  intros m.
  assert (cached Demo.ready) as Hcached
    by (repeat split; eexists; reflexivity).
  split; [cbn; lia |]. split; [lia |]. split; [exact Hcached |].
  apply (nonpositive_reduction_factor_loops m 100 5 0 [Demo.zeros11] [Demo.zeros11]
           Demo.att10 Demo.frame0 [] [] [] Demo.ready).
  - cbn. lia.
  - lia.
  - exact Hcached.
  - intros feed. do 6 eexists. split; reflexivity.
Defined.

(** [0 * ratio] is 0.0 for a finite ratio and not a number otherwise, for
    which [int] raises. *)
Lemma length_bound_empty ratio : length_bound 0 ratio = 0.
Proof.
  assert (float_of_int (Z.of_nat 0) = Ok 0%Q) as Hzero by reflexivity.
  unfold length_bound, int_times, py_mul. rewrite Hzero. cbn [rbind].
  destruct ratio as [b | negative |]; [| reflexivity | reflexivity].
  unfold to_float, round_to.
  assert (Qeq_bool (0 * b) 0 = true) as -> by (apply Qeq_bool_iff; ring).
  reflexivity.
Qed.

(** X13. For an empty text both length bounds are 0, and with a reduction
    factor that is not negative the first round is the last: a call that
    returns has invoked the decoder exactly once, whatever the stop
    probabilities. *)
Theorem empty_text_one_round m fuel text feats sids spembs lids s d s' :
  py_len text = Ok 0%nat ->
  0 <= reduction_factor (config m) ->
  __call__ m fuel text feats sids spembs lids s = (Done d, s') ->
  calls s' = calls s ++ call_log 1 (has_postdecoder m).
Proof.
  intros Hlen Hrf Hcall.
  destruct (call_done_inv _ _ _ _ _ _ _ _ _ _ Hcall)
    as (len & c_list & z_list & a_prev & prev_out & s1 & [[outs probs] att_ws] & s2
        & Hlen' & Hs1 & Hloop & _ & Hs').
  rewrite Hlen in Hlen'. injection Hlen' as <-.
  rewrite !length_bound_empty in Hloop.
  pose proof (decode_loop_bounds m 0 0 0 s1 fuel c_list z_list a_prev prev_out
                [] [] []) as Hb.
  cbn zeta in Hb. rewrite Hloop in Hb.
  destruct (Hb outs probs att_ws eq_refl) as (n & Hn & Hcalls & _ & Hbelow & _).
  cbn [fst snd] in Hcalls.
  assert (n = 1%nat) as ->.
  { destruct (decide (n = 1%nat)) as [-> | Hne]; [reflexivity |].
    specialize (Hbelow 1%nat ltac:(lia)). lia. }
  rewrite Hs', Hcalls, Hs1. unfold call_log. rewrite <- !app_assoc. reflexivity.
Qed.

(** No token: one decoder round, although the stop probability is 1/10. *)
Lemma empty_text_one_round_witness :
  let m := Demo.model 10 (1 # 2) 1 7 [] ["text"] in
  __call__ m 5 Probe.no_text None None None None fresh
  = (Done Probe.result_empty, Probe.after_empty) /\
  calls Probe.after_empty = calls fresh ++ call_log 1 false.
Proof.
  intros m.
  assert (__call__ m 5 Probe.no_text None None None None fresh
          = (Done Probe.result_empty, Probe.after_empty)) as Hcall by reflexivity.
  split; [exact Hcall |].
  apply (empty_text_one_round m 5 Probe.no_text None None None None fresh
           Probe.result_empty Probe.after_empty).
  - reflexivity.
  - cbn. lia.
  - exact Hcall.
Defined.

(** ** More on the encoder's input mapping *)

Lemma _set_input_dict_entries m dic key value dic' :
  _set_input_dict m dic key value = Ok dic' ->
  forall k v, dic' !! k = Some v ->
    dic !! k = Some v \/ (k = key /\ key ∈ input_names m /\ value = Some v).
Proof.
  unfold _set_input_dict. intros H k v Hk.
  destruct (bool_decide (key ∈ input_names m)) eqn:Hin.
  - apply bool_decide_eq_true in Hin. destruct value as [a |]; [| discriminate H].
    injection H as <-. apply lookup_insert_Some in Hk as [[<- <-] | [_ Hk]].
    + right. repeat split. exact Hin.
    + left. exact Hk.
  - injection H as <-. left. exact Hk.
Qed.

Lemma _set_input_dict_keeps m dic key value dic' k :
  _set_input_dict m dic key value = Ok dic' ->
  k <> key -> dic' !! k = dic !! k.
Proof.
  unfold _set_input_dict. intros H Hne.
  destruct (bool_decide (key ∈ input_names m)).
  - destruct value as [a |]; [| discriminate H]. injection H as <-.
    apply lookup_insert_ne. congruence.
  - injection H as <-. reflexivity.
Qed.

(** X14. The mapping built for the encoder always holds the text under
    [text], declared or not, and beyond it nothing but optional inputs that
    are both declared by the encoder and supplied by the caller: no other
    key is ever sent. *)
Theorem get_input_enc_sends m text feats sids spembs lids d :
  get_input_enc m text feats sids spembs lids = Ok d ->
  d !! "text" = Some text /\
  forall k v, d !! k = Some v ->
    (k = "text" /\ v = text) \/
    (k ∈ input_names m /\ (k, Some v) ∈ optional_inputs feats sids spembs lids).
Proof.
  unfold get_input_enc. intros H.
  destruct (_set_input_dict m {[ "text" := text ]} "feats" feats) as [d1 | e] eqn:E1;
    cbn [rbind] in H; [| discriminate H].
  destruct (_set_input_dict m d1 "sids" sids) as [d2 | e] eqn:E2;
    cbn [rbind] in H; [| discriminate H].
  destruct (_set_input_dict m d2 "spembs" spembs) as [d3 | e] eqn:E3;
    cbn [rbind] in H; [| discriminate H].
  destruct (_set_input_dict m d3 "lids" lids) as [d4 | e] eqn:E4;
    cbn [rbind] in H; [| discriminate H].
  injection H as <-. split.
  - rewrite (_set_input_dict_keeps _ _ _ _ _ "text" E4) by discriminate.
    rewrite (_set_input_dict_keeps _ _ _ _ _ "text" E3) by discriminate.
    rewrite (_set_input_dict_keeps _ _ _ _ _ "text" E2) by discriminate.
    rewrite (_set_input_dict_keeps _ _ _ _ _ "text" E1) by discriminate.
    apply lookup_singleton_eq.
  - intros k v Hk. unfold optional_inputs.
    destruct (_set_input_dict_entries _ _ _ _ _ E4 k v Hk) as [Hk3 | (-> & Hin & ->)];
      [| right; split; [exact Hin | set_solver]].
    destruct (_set_input_dict_entries _ _ _ _ _ E3 k v Hk3) as [Hk2 | (-> & Hin & ->)];
      [| right; split; [exact Hin | set_solver]].
    destruct (_set_input_dict_entries _ _ _ _ _ E2 k v Hk2) as [Hk1 | (-> & Hin & ->)];
      [| right; split; [exact Hin | set_solver]].
    destruct (_set_input_dict_entries _ _ _ _ _ E1 k v Hk1) as [Hk0 | (-> & Hin & ->)];
      [| right; split; [exact Hin | set_solver]].
    apply lookup_singleton_Some in Hk0 as [<- <-]. left. split; reflexivity.
Qed.

(** The encoder declares [text] and [sids]; features given all the same
    are not sent. *)
Lemma get_input_enc_sends_witness :
  let m := Demo.model 10 0 1 3 [] ["text"; "sids"] in
  let spk := Demo.vec [7%Q] in
  let extra := Demo.vec [9%Q] in
  let d : gmap string ndarray := <[ "sids" := spk ]> {[ "text" := Demo.text10 ]} in
  get_input_enc m Demo.text10 (Some extra) (Some spk) None None = Ok d /\
  d !! "text" = Some Demo.text10 /\
  forall k v, d !! k = Some v ->
    (k = "text" /\ v = Demo.text10) \/
    (k ∈ input_names m /\
     (k, Some v) ∈ optional_inputs (Some extra) (Some spk) None None).
Proof.
  intros m spk extra d.
  assert (get_input_enc m Demo.text10 (Some extra) (Some spk) None None = Ok d)
    as Hd by reflexivity.
  split; [exact Hd |].
  apply (get_input_enc_sends m Demo.text10 (Some extra) (Some spk) None None d Hd).
Defined.

(** ** The stop test *)



